(** * Ensemble NMT inference script: pre-processing, post-processing, driver

    A shallow embedding of
    [examples/nlp/machine_translation/nmt_transformer_infer_ensemble.py]:
    [filter_predicted_ids], [nmt_postprocess], [input_preprocess] and [main].

    Conventions.
    - A 2-D integer tensor is a list of rows of [Z]; a mask is a list of rows
      of [bool] (the script stores it as a float tensor of 0. and 1.).
    - Token ids are vocabulary indices.  The staging array [src_ids_] of
      [input_preprocess] is a float64 array; every integer of magnitude up to
      2^53 is represented exactly there and converted back exactly by
      [torch.LongTensor], so the staging is carried out on [Z].
    - Tokenizers and text processors are external collaborators: records of
      functions.
    - Tensors that are updated in place live in a heap of objects addressed
      by locations; a Python variable holding a tensor is a location. *)

From Stdlib Require Import ZArith String Ascii List Lia PrimFloat.
From Stdlib Require Import DecimalString DecimalZ.
From stdpp Require Import base option list gmap strings.

Local Open Scope string_scope.
Local Open Scope list_scope.
Local Open Scope Z_scope.

(** ** Data *)

Abbreviation tensor := (list (list Z)) (only parsing).
Abbreviation mask := (list (list bool)) (only parsing).
Abbreviation loc := nat (only parsing).

Record Tokenizer : Type := {
  vocab_size : Z;
  bos_id : Z;
  eos_id : Z;
  pad_id : Z;
  unk_id : Z;
  text_to_ids : string -> list Z;
  ids_to_text : list Z -> string
}.

Record Processor : Type := {
  normalize : string -> string;
  tokenize : string -> string;
  detokenize : list string -> string
}.

(** The attributes of [MTEncDecModel] the script reads. *)
Record Model : Type := {
  encoder_tokenizer : Tokenizer;
  decoder_tokenizer : Tokenizer;
  source_processor : option Processor;
  target_processor : option Processor
}.

(** ** Exceptions and results *)

Inductive exn : Type :=
  | ValueError
  | IndexError
  | ReferenceError.

Inductive result (A : Type) : Type :=
  | Ok (a : A)
  | Raise (e : exn).
Arguments Ok {A} a.
Arguments Raise {A} e.

Global Instance result_ret : MRet result := fun _ a => Ok a.
Global Instance result_bind : MBind result := fun _ _ k r =>
  match r with
  | Ok a => k a
  | Raise e => Raise e
  end.

(** A [for] loop over a list, threading the variables it assigns. *)
Fixpoint for_loop {M : Type -> Type} `{!MBind M, !MRet M} {S X}
    (body : S -> X -> M S) (xs : list X) (s : S) : M S :=
  match xs with
  | [] => mret s
  | x :: xs' => s' ← body s x; for_loop body xs' s'
  end.

(** ** Python and numpy primitives *)

(** [max(iterable)]: ValueError on an empty iterable. *)
Definition py_max (l : list nat) : result nat :=
  match l with
  | [] => Raise ValueError
  | x :: l' => Ok (foldl Nat.max x l')
  end.

(** [np.ones((n, m)) * v] *)
Definition np_full (n m : nat) (v : Z) : tensor := replicate n (replicate m v).

(** [row[:len(txt)] = txt] on a one-dimensional view: the slice has
    [min (len txt) (len row)] cells; numpy broadcasts a value of one cell
    and refuses any other value whose length is not that of the slice. *)
Definition set_prefix (row txt : list Z) : result (list Z) :=
  if decide (length txt ≤ length row)%nat
  then Ok (txt ++ drop (length txt) row)
  else if decide (length txt = 1)%nat
  then Ok row
  else Raise ValueError.

(** [src_ids_[i][:len(txt)] = txt] *)
Definition set_row_prefix (src_ids_ : tensor) (i : nat) (txt : list Z)
  : result tensor :=
  match src_ids_ !! i with
  | None => Raise IndexError
  | Some row => row' ← set_prefix row txt; Ok (<[i := row']> src_ids_)
  end.

(** [enumerate] *)
Fixpoint enumerate_from {A} (i : nat) (l : list A) : list (nat * A) :=
  match l with
  | [] => []
  | x :: l' => (i, x) :: enumerate_from (S i) l'
  end.
Definition enumerate {A} (l : list A) : list (nat * A) := enumerate_from 0 l.

(** [s.split(sep)] for a one-character separator. *)
Fixpoint split (sep : ascii) (s : string) : list string :=
  match s with
  | EmptyString => [EmptyString]
  | String c s' =>
      if Ascii.eqb c sep then EmptyString :: split sep s'
      else match split sep s' with
           | w :: ws => String c w :: ws
           | [] => [String c EmptyString]
           end
  end.

(** ** Input preparation *)

(** The body of the first loop of [input_preprocess]: one sentence to its
    wrapped id list. *)
Definition wrap_sentence (model : Model) (txt : string) : list Z :=
  let txt :=
    match source_processor model with
    | Some p => tokenize p (normalize p txt)
    | None => txt
    end in
  let ids := text_to_ids (encoder_tokenizer model) txt in
  [bos_id (encoder_tokenizer model)] ++ ids ++ [eos_id (encoder_tokenizer model)].

Definition input_preprocess (text : list string) (model : Model)
  : result (tensor * mask) :=
  let inputs := foldl (fun inputs txt => inputs ++ [wrap_sentence model txt]) [] text in
  max_len ← py_max (map length inputs);
  let src_ids_ := np_full (length inputs) max_len (pad_id (encoder_tokenizer model)) in
  src_ids_ ← for_loop (fun src_ids_ '(i, txt) => set_row_prefix src_ids_ i txt)
                      (enumerate inputs) src_ids_;
  let src_mask :=
    map (map (fun x => negb (x =? pad_id (encoder_tokenizer model)))) src_ids_ in
  let src := src_ids_ in
  Ok (src, src_mask).

(** ** Objects, external calls and output *)

Inductive printed : Type :=
  | PInt (n : nat)
  | PList (l : list string).

(** What a run does that is visible outside the script: the calls it makes
    to its collaborators, what it prints and what it writes. *)
Inductive event : Type :=
  | EvLogInfo (msg : string)
  | EvGenerate (src_ids : tensor) (src_mask : mask)
  | EvIdsToText (ids : list Z)
  | EvDetokenize (tokens : list string)
  | EvPrint (v : printed)
  | EvWrite (data : string).

Record world : Type := World {
  heap : gmap loc tensor;
  trace : list event
}.

(** Computations over the world that may raise; the world reached when an
    exception is raised is kept. *)
Definition M (A : Type) : Type := world -> world * result A.

Global Instance M_ret : MRet M := fun _ a w => (w, Ok a).
Global Instance M_bind : MBind M := fun _ _ k m w =>
  match m w with
  | (w', Ok a) => k a w'
  | (w', Raise e) => (w', Raise e)
  end.

Definition lift {A} (r : result A) : M A := fun w => (w, r).

Definition emit (e : event) : M unit :=
  fun w => (World (heap w) (trace w ++ [e]), Ok tt).

(** A new tensor object. *)
Definition alloc (t : tensor) : M loc :=
  fun w => let l := fresh (dom (heap w)) in
           (World (<[l := t]> (heap w)) (trace w), Ok l).

Definition load (l : loc) : M tensor :=
  fun w => match heap w !! l with
           | Some t => (w, Ok t)
           | None => (w, Raise ReferenceError)
           end.

Definition store (l : loc) (t : tensor) : M unit :=
  fun w => (World (<[l := t]> (heap w)) (trace w), Ok tt).

Definition nl : string := String "010"%char EmptyString.

(** ** Output post-processing *)

(** [ids[ids >= tokenizer.vocab_size] = tokenizer.unk_id; return ids]:
    a masked assignment into the tensor object [ids] itself. *)
Definition filter_predicted_ids (tokenizer : Tokenizer) (ids : loc) : M loc :=
  t ← load ids;
  store ids (map (map (fun x =>
      if x >=? vocab_size tokenizer then unk_id tokenizer else x)) t);;
  mret ids.

Definition nmt_postprocess (beam_results : loc) (model : Model) : M (list string) :=
  beam_results ← filter_predicted_ids (decoder_tokenizer model) beam_results;
  rows ← load beam_results;
  translations ← mapM (fun tr =>
      emit (EvIdsToText tr);;
      mret (ids_to_text (decoder_tokenizer model) tr)) rows;
  match target_processor model with
  | Some target_processor =>
      mapM (fun translation =>
          emit (EvDetokenize (split " " translation));;
          mret (detokenize target_processor (split " " translation))) translations
  | None => mret translations
  end.

(** ** The generator *)

Record GeneratorConfig : Type := {
  max_sequence_length : Z;
  beam_size : Z;
  bos : Z;
  pad : Z;
  eos : Z;
  len_pen : float;
  max_delta_length : Z
}.

Module args.
(** The parsed command line.  [models] is consumed by the restore step,
    which is outside this development. *)
Record t : Type := {
  srctext : string;
  tgtout : string;
  batch_size : Z;
  beam_size : Z;
  len_pen : float;
  max_delta_length : Z
}.
End args.

(** The variables of the loop over the input file. *)
Record loop_vars : Type := Vars {
  src_text : list string;
  tgt_text : list string;
  count : nat
}.

(** Modelled from the spec: the constructor of
    [EnsembleBeamSearchSequenceGenerator], which the script imports from
    [nemo.collections.nlp.modules.common.transformer.transformer_generators]
    and which is not among the sources.  The spec gives the generator
    configuration as [beam_size: int>0, max_sequence_length: int>0] and has
    configuration errors (invalid beam size, non-positive max length)
    rejected eagerly, before decoding starts.  [beam_search] stands for the
    search proper, whose decision logic is outside this development. *)
Definition EnsembleBeamSearchSequenceGenerator_init
    (beam_search : GeneratorConfig -> tensor -> mask -> tensor)
    (cfg : GeneratorConfig) : result (tensor -> mask -> tensor) :=
  if decide (0 < beam_size cfg ∧ 0 < max_sequence_length cfg)
  then Ok (beam_search cfg)
  else Raise ValueError.

Section Script.

(** [str.strip] *)
Variable strip : string -> string.

(** The generator class, as the script uses it: constructed from a
    configuration (the constructor may raise), then called on a batch. *)
Variable EnsembleBeamSearchSequenceGenerator :
  GeneratorConfig -> result (tensor -> mask -> tensor).

(** The five statements that [main] runs on a batch, in the loop and after
    it: prepare, (move to the device,) generate, post-process. *)
Definition translate_batch (ensemble_generator : tensor -> mask -> tensor)
    (models0 : Model) (src_text : list string) : M (list string) :=
  '(src_ids, src_mask) ← lift (input_preprocess src_text models0);
  emit (EvGenerate src_ids src_mask);;
  beam_results ← alloc (ensemble_generator src_ids src_mask);
  nmt_postprocess beam_results models0.

(** The body of the loop over the lines of the input file. *)
Definition loop_body (args : args.t) (models0 : Model)
    (ensemble_generator : tensor -> mask -> tensor)
  : loop_vars -> string -> M loop_vars :=
  fun '(Vars src_text tgt_text count) line =>
    let src_text := src_text ++ [strip line] in
    '(Vars src_text tgt_text count) ←
      (if decide (Z.of_nat (length src_text) = args.batch_size args) then
         res ← translate_batch ensemble_generator models0 src_text;
         (if decide (length res ≠ length src_text) then
            emit (EvPrint (PInt (length res)));;
            emit (EvPrint (PInt (length src_text)));;
            emit (EvPrint (PList res));;
            emit (EvPrint (PList src_text))
          else mret tt);;
         mret (Vars [] (tgt_text ++ res) count)
       else mret (Vars src_text tgt_text count));
    mret (Vars src_text tgt_text (count + 1)%nat).

(** The statement after the loop: the sentences still pending. *)
Definition last_batch_step (models0 : Model)
    (ensemble_generator : tensor -> mask -> tensor)
  : loop_vars -> M loop_vars :=
  fun '(Vars src_text tgt_text count) =>
    if decide (0 < length src_text)%nat then
      res ← translate_batch ensemble_generator models0 src_text;
      mret (Vars src_text (tgt_text ++ res) count)
    else mret (Vars src_text tgt_text count).

Definition main (args : args.t) (models0 : Model) (src_f : list string) : M unit :=
  ensemble_generator ← lift (EnsembleBeamSearchSequenceGenerator {|
      max_sequence_length := 512;
      beam_size := args.beam_size args;
      bos := bos_id (decoder_tokenizer models0);
      pad := pad_id (decoder_tokenizer models0);
      eos := eos_id (decoder_tokenizer models0);
      len_pen := args.len_pen args;
      max_delta_length := args.max_delta_length args |});
  emit (EvLogInfo ("Translating: " ++ args.srctext args));;
  vars ← for_loop (loop_body args models0 ensemble_generator)
                  src_f (Vars [] [] 0%nat);
  vars ← last_batch_step models0 ensemble_generator vars;
  for_loop (M:=M) (fun _ line => emit (EvWrite (line ++ nl))) (tgt_text vars) tt.

End Script.

(** * Model-parallel overrides

    A shallow embedding of [nemo/collections/nlp/parts/nlp_overrides.py]:
    the checkpoint paths of [NLPDDPPlugin], [NLPSaveRestoreConnector.save_to],
    the precision conversions and [Float16Module].

    Conventions.
    - [AppState()] is the process-wide singleton of [nemo.utils]; it is
      passed explicitly, with the attributes this file reads, each of which
      is [None] until it is set.
    - Paths are POSIX paths ([os.path] is [posixpath]).
    - Methods of the parent classes, of the model and of the standard
      library that act on the file system are recorded as calls, in order. *)

(** ** Python strings *)

(** [s[:n]] *)
Fixpoint string_take (n : nat) (s : string) : string :=
  match n, s with
  | S n', String c s' => String c (string_take n' s')
  | _, _ => EmptyString
  end.

(** [s[n:]] *)
Fixpoint string_drop (n : nat) (s : string) : string :=
  match n, s with
  | S n', String _ s' => string_drop n' s'
  | _, _ => s
  end.

(** [c * n] *)
Fixpoint string_repeat (c : ascii) (n : nat) : string :=
  match n with
  | O => EmptyString
  | S n' => String c (string_repeat c n')
  end.

(** [s.rfind('/') + 1]: one past the last slash, 0 when there is none. *)
Fixpoint rfind_sep_end (s : string) : nat :=
  match s with
  | EmptyString => 0
  | String c s' =>
      match rfind_sep_end s' with
      | O => if Ascii.eqb c "/" then 1 else 0
      | S i => S (S i)
      end
  end.

(** [s.rstrip('/')] *)
Fixpoint rstrip_sep (s : string) : string :=
  match s with
  | EmptyString => EmptyString
  | String c s' =>
      match rstrip_sep s' with
      | EmptyString => if Ascii.eqb c "/" then EmptyString else String c EmptyString
      | r => String c r
      end
  end.

(** [s.startswith('/')] and [s.endswith('/')] *)
Definition startswith_sep (s : string) : bool :=
  match s with
  | String c _ => Ascii.eqb c "/"
  | EmptyString => false
  end.

Fixpoint endswith_sep (s : string) : bool :=
  match s with
  | EmptyString => false
  | String c EmptyString => Ascii.eqb c "/"
  | String _ s' => endswith_sep s'
  end.

(** The digits of [format(z, '0<width>d')]: sign first, then zeros up to
    the width, then the decimal digits. *)
Definition zfill (width : nat) (digits : string) : string :=
  string_repeat "0" (width - String.length digits) +:+ digits.

Definition format_0d (width : nat) (z : Z) : string :=
  match Z.to_int z with
  | Decimal.Pos d => zfill width (NilZero.string_of_uint d)
  | Decimal.Neg d => String "-" (zfill (width - 1) (NilZero.string_of_uint d))
  end.

(** [range(n)] *)
Definition py_range (n : Z) : list Z := map Z.of_nat (seq 0 (Z.to_nat n)).

(** ** [posixpath] *)

Definition dirname (p : string) : string :=
  let i := rfind_sep_end p in
  let head := string_take i p in
  if decide (head ≠ EmptyString ∧ head ≠ string_repeat "/" (String.length head))
  then rstrip_sep head
  else head.

Definition basename (p : string) : string :=
  let i := rfind_sep_end p in
  string_drop i p.

(** One step of the loop of [os.path.join]. *)
Definition join_step (path b : string) : string :=
  if startswith_sep b then b
  else if decide (path = EmptyString) then path +:+ b
  else if endswith_sep path then path +:+ b
  else path +:+ "/" +:+ b.

(** [os.path.join(a, *p)] *)
Definition path_join (a : string) (p : list string) : string :=
  foldl join_step a p.

(** ** The overrides *)

Module nlp_overrides.

Inductive py_error : Type :=
  | TypeError
  | NameError (name : string)
  | MisconfigurationError (msg : string)
  | PlainException (msg : string).

Inductive outcome (A : Type) : Type :=
  | Returns (a : A)
  | Raises (e : py_error).
Arguments Returns {A} a.
Arguments Raises {A} e.

Global Instance outcome_ret : MRet outcome := fun _ a => Returns a.
Global Instance outcome_bind : MBind outcome := fun _ _ k r =>
  match r with
  | Returns a => k a
  | Raises e => Raises e
  end.

(** The attributes of [AppState()] read in this file. *)
Record AppState : Type := {
  model_parallel_size : option Z;
  model_parallel_rank : option Z;
  data_parallel_rank : option Z;
  data_parallel_size : option Z
}.

(** [f'{x:02d}'] for an attribute that may be [None]: [None] has no
    format specification and raises. *)
Definition format_02d (x : option Z) : outcome string :=
  match x with
  | Some z => Returns (format_0d 2 z)
  | None => Raises TypeError
  end.

(** [x is not None and x > 1] *)
Definition is_model_parallel (app_state : AppState) : bool :=
  match model_parallel_size app_state with
  | Some n => bool_decide (n > 1)
  | None => false
  end.

(** [NLPDDPPlugin._inject_model_parallel_rank] *)
Definition _inject_model_parallel_rank (app_state : AppState) (filepath : string)
  : outcome string :=
  if is_model_parallel app_state then
    let dirname := dirname filepath in
    let basename := basename filepath in
    rank ← format_02d (model_parallel_rank app_state);
    let filepath := dirname +:+ "/mp_rank_" +:+ rank +:+ "/" +:+ basename in
    Returns filepath
  else Returns filepath.

(** Calls to the parent classes, the model, the process group and the
    file system. *)
Inductive call : Type :=
  | LogInfo (msg : string)
  | SuperSaveCheckpoint (filepath : string)
  | SuperRemoveCheckpoint (filepath : string)
  | SaveStateDictToDisk (path : string)
  | Barrier
  | MakeDirs (path : string)
  | Move (src dst : string)
  | ToConfigFile (path2yaml_file : string)
  | HandleArtifacts (nemo_file_folder : string)
  | UpdateArtifactPaths (path2yaml_file : string)
  | MakeNemoFileFromFolder (filename source_dir : string)
  | SuperSaveTo (save_path : string)
  | SuperOptimizerStep
  | Closure
  | CopyModelGradsToMainGrads
  | ScalerUnscale
  | AfterClosure
  | ScalerStep
  | ScalerUpdate.

(** A method body: the calls made, in order, and how it ends. *)
Definition T (A : Type) : Type := list call * outcome A.

Global Instance T_ret : MRet T := fun _ a => ([], Returns a).
Global Instance T_bind : MBind T := fun _ _ k m =>
  match m with
  | (cs, Returns a) => let '(cs', r) := k a in (cs ++ cs', r)
  | (cs, Raises e) => (cs, Raises e)
  end.

Definition do (c : call) : T unit := ([c], Returns tt).
Definition of_outcome {A} (r : outcome A) : T A := ([], r).

(** [NLPDDPPlugin.save_checkpoint] *)
Definition save_checkpoint (app_state : AppState) (filepath : string) : T unit :=
  filepath ← of_outcome (_inject_model_parallel_rank app_state filepath);
  do (SuperSaveCheckpoint filepath).

(** [NLPDDPPlugin.remove_checkpoint] *)
Definition remove_checkpoint (app_state : AppState) (filepath : string) : T unit :=
  filepath ← of_outcome (_inject_model_parallel_rank app_state filepath);
  do (LogInfo ("Removing checkpoint: " +:+ filepath));;
  do (SuperRemoveCheckpoint filepath).

(** [NLPDDPPlugin.should_rank_save_checkpoint]; [super_value] is the
    parent's property. *)
Definition should_rank_save_checkpoint (app_state : AppState) (super_value : bool)
  : bool :=
  if is_model_parallel app_state
  then bool_decide (data_parallel_rank app_state = Some 0)
  else super_value.

Section SaveTo.

(** [self.model_weights_ckpt] and [self.model_config_yaml], set by the
    parent class. *)
Variable model_weights_ckpt : string.
Variable model_config_yaml : string.

(** The directory [tempfile.TemporaryDirectory()] yields. *)
Variable tmpdir : string.

(** [hasattr(model, 'artifacts') and model.artifacts is not None] *)
Variable has_artifacts : bool.

(** The body of the loop over the ranks in [save_to]. *)
Definition move_rank_weights (dir_name : string) (mp_rank : Z) : T unit :=
  do (MakeDirs (path_join tmpdir ["mp_rank_" +:+ format_0d 2 mp_rank]));;
  let mp_model_weights :=
    path_join dir_name ["mp_rank_" +:+ format_0d 2 mp_rank +:+ "_" +:+ model_weights_ckpt] in
  do (Move mp_model_weights
           (path_join tmpdir ["mp_rank_" +:+ format_0d 2 mp_rank; model_weights_ckpt])).

(** [NLPSaveRestoreConnector.save_to] *)
Definition save_to (app_state : AppState) (save_path : string) : T unit :=
  match model_parallel_size app_state with
  | Some size =>
      if bool_decide (size > 1) then
        let dir_name := dirname save_path in
        (if bool_decide (data_parallel_rank app_state = Some 0) then
           rank ← of_outcome (format_02d (model_parallel_rank app_state));
           let mp_model_weights :=
             path_join dir_name ["mp_rank_" +:+ rank +:+ "_" +:+ model_weights_ckpt] in
           do (SaveStateDictToDisk mp_model_weights)
         else mret tt);;
        do Barrier;;
        (if bool_decide (model_parallel_rank app_state = Some 0)
            && bool_decide (data_parallel_rank app_state = Some 0) then
           for_loop (fun _ mp_rank => move_rank_weights dir_name mp_rank)
                    (py_range size) tt;;
           let config_yaml := path_join tmpdir [model_config_yaml] in
           do (ToConfigFile config_yaml);;
           (if has_artifacts then
              do (HandleArtifacts tmpdir);;
              do (UpdateArtifactPaths config_yaml)
            else mret tt);;
           do (MakeNemoFileFromFolder save_path tmpdir)
         else mret tt)
      else do (SuperSaveTo save_path)
  | None => do (SuperSaveTo save_path)
  end.

End SaveTo.

(** *** Precision conversions *)

(** The tensor types named in the file; any other legacy tensor type is
    [OtherTensor]. *)
Inductive tensor_type : Type :=
  | FloatTensor
  | CudaFloatTensor
  | HalfTensor
  | CudaHalfTensor
  | BFloat16Tensor
  | CudaBFloat16Tensor
  | OtherTensor (name : string).

Global Instance tensor_type_eq_dec : EqDecision tensor_type.
Proof. solve_decision. Defined.

Definition _FLOAT_TYPES : list tensor_type := [FloatTensor; CudaFloatTensor].
Definition _HALF_TYPES : list tensor_type := [HalfTensor; CudaHalfTensor].
Definition _BF16_TYPES : list tensor_type := [BFloat16Tensor; CudaBFloat16Tensor].

(** A Python value: an object that is neither a tuple nor a list, a tuple
    or a list. *)
#[warnings="-register-all"]
Inductive pyval (obj : Type) : Type :=
  | Obj (o : obj)
  | PyTuple (l : list (pyval obj))
  | PyList (l : list (pyval obj)).
Arguments Obj {obj} o.
Arguments PyTuple {obj} l.
Arguments PyList {obj} l.

(** [Float16Module]'s [precision] argument. *)
Inductive precision_arg : Type :=
  | PrecisionInt (n : Z)
  | PrecisionStr (s : string).

Global Instance precision_arg_eq_dec : EqDecision precision_arg.
Proof. solve_decision. Defined.

Section Precision.

(** Objects, and what torch tells about them. *)
Variable obj : Type.

(** [isinstance(val, (Parameter, Variable))] and [val.data] *)
Variable is_parameter_or_variable : obj -> bool.
Variable data : obj -> obj.

(** The legacy tensor type of a tensor; [None] for an object that is not a
    tensor. *)
Variable type_of : obj -> option tensor_type.

(** [val.float()], [val.half()] and [val.bfloat16()] *)
Variable to_float : obj -> obj.
Variable to_half : obj -> obj.
Variable to_bfloat16 : obj -> obj.

(** [isinstance(val, types)] for a tuple of tensor types. *)
Definition isinstance (val : obj) (types : list tensor_type) : bool :=
  match type_of val with
  | Some t => bool_decide (t ∈ types)
  | None => false
  end.

Fixpoint conversion_helper (val : pyval obj) (conversion : obj -> pyval obj)
  : pyval obj :=
  match val with
  | Obj o => conversion o
  | PyTuple l => PyTuple (map (fun v => conversion_helper v conversion) l)
  | PyList l => PyList (map (fun v => conversion_helper v conversion) l)
  end.

(** The local function of [fp32_to_float16]. *)
Definition half_conversion (float16_convertor : obj -> pyval obj) (val : obj)
  : pyval obj :=
  let val_typecheck := val in
  let val_typecheck :=
    if is_parameter_or_variable val_typecheck then data val else val_typecheck in
  if isinstance val_typecheck _FLOAT_TYPES then float16_convertor val else Obj val.

Definition fp32_to_float16 (val : pyval obj) (float16_convertor : obj -> pyval obj)
  : pyval obj :=
  conversion_helper val (half_conversion float16_convertor).

(** The local function of [float16_to_fp32]. *)
Definition float_conversion (val : obj) : pyval obj :=
  let val_typecheck := val in
  let val_typecheck :=
    if is_parameter_or_variable val_typecheck then data val else val_typecheck in
  if isinstance val_typecheck (_BF16_TYPES ++ _HALF_TYPES)
  then Obj (to_float val)
  else Obj val.

Definition float16_to_fp32 (val : pyval obj) : pyval obj :=
  conversion_helper val float_conversion.

(** The wrapped network: its casts, and its call on positional and
    keyword arguments. *)
Variable network : Type.
Variable kwargs : Type.
Variable network_half : network -> network.
Variable network_bfloat16 : network -> network.
Variable network_call : network -> list (pyval obj) -> kwargs -> pyval obj.

Record Float16Module : Type := {
  module : network;
  float16_convertor : obj -> pyval obj
}.

(** [Float16Module.__init__] *)
Definition Float16Module_init (module : network) (precision : precision_arg)
  : outcome Float16Module :=
  if decide (precision = PrecisionInt 16) then
    Returns {| module := network_half module;
               float16_convertor := fun val => Obj (to_half val) |}
  else if decide (precision = PrecisionStr "bf16") then
    Returns {| module := network_bfloat16 module;
               float16_convertor := fun val => Obj (to_bfloat16 val) |}
  else Raises (PlainException "should not be here").

(** [*inputs] for a tuple or a list ([forward] unpacks what
    [conversion_helper] made of a tuple, which is a tuple). *)
Definition star (inputs : pyval obj) : list (pyval obj) :=
  match inputs with
  | PyTuple l | PyList l => l
  | Obj _ => []
  end.

(** [Float16Module.forward]; the two flags are
    [parallel_state.is_pipeline_first_stage()] and
    [parallel_state.is_pipeline_last_stage()]. *)
Definition forward (self : Float16Module)
    (is_pipeline_first_stage is_pipeline_last_stage : bool)
    (inputs : list (pyval obj)) (kw : kwargs) : pyval obj :=
  let inputs := PyTuple inputs in
  let inputs :=
    if is_pipeline_first_stage
    then fp32_to_float16 inputs (float16_convertor self)
    else inputs in
  let outputs := network_call (module self) (star inputs) kw in
  let outputs :=
    if is_pipeline_last_stage then float16_to_fp32 outputs else outputs in
  outputs.

End Precision.

(** *** [MegatronHalfPrecisionPlugin.optimizer_step] *)

(** The names bound at the top level of the module when it has been
    imported: by its import statements (lines 15-45; [parallel_state] only
    where apex is installed), its three assignments of tensor types and
    its class and function definitions. *)
Definition module_globals : list string :=
  ["os"; "shutil"; "tempfile"; "defaultdict";
   "Any"; "Dict"; "List"; "Optional"; "Union"; "Callable"; "Generator";
   "contextmanager"; "torch"; "LightningDistributedModule"; "ClusterEnvironment";
   "CheckpointIO"; "DDPPlugin"; "NativeMixedPrecisionPlugin"; "_PATH";
   "DistributedDataParallel"; "SaveRestoreConnector"; "AppState"; "logging";
   "MegatronModule"; "Variable"; "Parameter"; "parallel_state"; "HAVE_APEX";
   "_FLOAT_TYPES"; "_HALF_TYPES"; "_BF16_TYPES";
   "NLPDDPPlugin"; "NLPSaveRestoreConnector"; "GradScaler";
   "MegatronHalfPrecisionPlugin"; "conversion_helper"; "fp32_to_float16";
   "float16_to_fp32"; "Float16Module"].

(** Reading a name that is neither local nor built in: a name the module
    does not bind raises [NameError]. *)
Definition global (name : string) : T unit :=
  if bool_decide (name ∈ module_globals) then mret tt
  else of_outcome (Raises (NameError name)).

(** [optimizer_step], on what it tests: whether [self.scaler] is set,
    whether the optimizer is an [LBFGS], whether the closure returned
    [None], whether the model is a [LightningModule] and whether it
    optimizes automatically. *)
Definition optimizer_step (scaler_is_none optimizer_is_lbfgs closure_returns_none
    model_is_lightning automatic_optimization : bool) (optimizer_idx : Z) : T unit :=
  if scaler_is_none then do SuperOptimizerStep
  else if optimizer_is_lbfgs then
    global "MisconfigurationException";;
    of_outcome (Raises (MisconfigurationError
      ("Native AMP and the LBFGS optimizer are not compatible (optimizer "
       +:+ format_0d 0 optimizer_idx +:+ ").")))
  else
    do Closure;;
    do CopyModelGradsToMainGrads;;
    do ScalerUnscale;;
    do AfterClosure;;
    let skipped_backward := closure_returns_none in
    lightning ← (global "pl";; mret model_is_lightning);
    if negb lightning || negb automatic_optimization || negb skipped_backward
    then do ScalerStep;; do ScalerUpdate
    else mret tt.

End nlp_overrides.

(** * Vocabulary of the statements *)

(** The ids the encoder tokenizer gives a sentence (after the optional
    source processor). *)
Definition sentence_ids (model : Model) (txt : string) : list Z :=
  text_to_ids (encoder_tokenizer model)
    match source_processor model with
    | Some p => tokenize p (normalize p txt)
    | None => txt
    end.

(** A wrapped sentence followed by pad ids up to [m] cells. *)
Definition pad_row (m : nat) (pad : Z) (txt : list Z) : list Z :=
  txt ++ replicate (m - length txt) pad.

(** The longest wrapped sentence of a batch. *)
Definition batch_max_len (model : Model) (text : list string) : nat :=
  max_list (map (fun txt => length (wrap_sentence model txt)) text).


(** Number of cells of a mask row that are set. *)
Definition count_true (row : list bool) : nat :=
  length (filter (fun b => b = true) row).

(** The mask marks, in each row, exactly the cells of that row's wrapped
    sentence: set on them, clear on what follows. *)
Definition marks_sentences (model : Model) (text : list string)
    (src_mask : mask) : Prop :=
  length src_mask = length text ∧
  ∀ i txt, text !! i = Some txt ->
    ∃ row, src_mask !! i = Some row
      ∧ row = replicate (length (wrap_sentence model txt)) true
              ++ replicate (batch_max_len model text
                            - length (wrap_sentence model txt)) false
      ∧ count_true row = length (wrap_sentence model txt).

(** What the masked assignment of [filter_predicted_ids] leaves in a cell
    that held [x]. *)
Definition clamp (tokenizer : Tokenizer) (x : Z) : Z :=
  if x >=? vocab_size tokenizer then unk_id tokenizer else x.

Definition clamp_tensor (tokenizer : Tokenizer) (t : tensor) : tensor :=
  map (map (clamp tokenizer)) t.

(** The texts [nmt_postprocess] returns for the rows it converts. *)
Definition translations_of (model : Model) (rows : tensor) : list string :=
  let translations := map (ids_to_text (decoder_tokenizer model)) rows in
  match target_processor model with
  | Some p => map (fun translation => detokenize p (split " " translation)) translations
  | None => translations
  end.

(** The calls [nmt_postprocess] makes for the rows it converts. *)
Definition postprocess_events (model : Model) (rows : tensor) : list event :=
  map EvIdsToText rows
  ++ match target_processor model with
     | Some p => map (fun translation => EvDetokenize (split " " translation))
                     (map (ids_to_text (decoder_tokenizer model)) rows)
     | None => []
     end.

(** The arguments of the [ids_to_text] calls of a trace, in order. *)
Fixpoint ids_to_text_calls (evs : list event) : list (list Z) :=
  match evs with
  | [] => []
  | EvIdsToText ids :: evs' => ids :: ids_to_text_calls evs'
  | _ :: evs' => ids_to_text_calls evs'
  end.

(** The data written to the output file by a trace, in order. *)
Fixpoint written (evs : list event) : list string :=
  match evs with
  | [] => []
  | EvWrite data :: evs' => data :: written evs'
  | _ :: evs' => written evs'
  end.

(** Whether a text holds a line break. *)
Fixpoint has_newline (s : string) : bool :=
  match s with
  | EmptyString => false
  | String c s' => Ascii.eqb c "010" || has_newline s'
  end.

(** The content of the output file after a trace: the data of its writes,
    one after the other. *)
Definition output_text (evs : list event) : string :=
  foldr String.append EmptyString (written evs).

(** What is printed by a trace, in order. *)
Fixpoint printed_values (evs : list event) : list printed :=
  match evs with
  | [] => []
  | EvPrint v :: evs' => v :: printed_values evs'
  | _ :: evs' => printed_values evs'
  end.

(** The configuration [main] constructs the generator from. *)
Definition main_config (args : args.t) (models0 : Model) : GeneratorConfig := {|
  max_sequence_length := 512;
  beam_size := args.beam_size args;
  bos := bos_id (decoder_tokenizer models0);
  pad := pad_id (decoder_tokenizer models0);
  eos := eos_id (decoder_tokenizer models0);
  len_pen := args.len_pen args;
  max_delta_length := args.max_delta_length args |}.

(** The rows post-processing converts for a batch of sentences: the
    generator's output on the prepared batch, clamped. *)
Definition batch_rows (generator : tensor -> mask -> tensor) (models0 : Model)
    (batch : list string) : tensor :=
  match input_preprocess batch models0 with
  | Ok (src_ids, src_mask) =>
      clamp_tensor (decoder_tokenizer models0) (generator src_ids src_mask)
  | Raise _ => []
  end.

Definition batch_translations (generator : tensor -> mask -> tensor)
    (models0 : Model) (batch : list string) : list string :=
  translations_of models0 (batch_rows generator models0 batch).

(** The collaborator calls made for a batch. *)
Definition batch_events (generator : tensor -> mask -> tensor) (models0 : Model)
    (batch : list string) : list event :=
  match input_preprocess batch models0 with
  | Ok (src_ids, src_mask) =>
      EvGenerate src_ids src_mask
        :: postprocess_events models0 (batch_rows generator models0 batch)
  | Raise _ => []
  end.

(** The four [print] calls of the length check. *)
Definition mismatch_report (res src_text : list string) : list event :=
  [EvPrint (PInt (length res)); EvPrint (PInt (length src_text));
   EvPrint (PList res); EvPrint (PList src_text)].

(** The events of a batch translated inside the loop. *)
Definition full_batch_events (generator : tensor -> mask -> tensor)
    (models0 : Model) (batch : list string) : list event :=
  batch_events generator models0 batch
  ++ if decide (length (batch_translations generator models0 batch) ≠ length batch)
     then mismatch_report (batch_translations generator models0 batch) batch
     else [].

Section Batching.

Variable strip : string -> string.
Variable batch_size : Z.

(** The batches translated inside the loop over the file, when the loop
    starts with [cur] pending. *)
Fixpoint full_batches (cur : list string) (src_f : list string)
  : list (list string) :=
  match src_f with
  | [] => []
  | line :: src_f' =>
      let cur' := cur ++ [strip line] in
      if decide (Z.of_nat (length cur') = batch_size)
      then cur' :: full_batches [] src_f'
      else full_batches cur' src_f'
  end.

(** The sentences still pending when the loop ends. *)
Fixpoint leftover (cur : list string) (src_f : list string) : list string :=
  match src_f with
  | [] => cur
  | line :: src_f' =>
      let cur' := cur ++ [strip line] in
      if decide (Z.of_nat (length cur') = batch_size)
      then leftover [] src_f'
      else leftover cur' src_f'
  end.

(** The last, partial batch, if any. *)
Definition last_batch (src_f : list string) : list (list string) :=
  if decide (0 < length (leftover [] src_f))%nat then [leftover [] src_f] else [].

(** All the batches of a file, in order. *)
Definition batches (src_f : list string) : list (list string) :=
  full_batches [] src_f ++ last_batch src_f.

End Batching.

(** Everything a run of [main] does, once the generator is constructed. *)
Definition main_events (strip : string -> string)
    (generator : tensor -> mask -> tensor) (args : args.t) (models0 : Model)
    (src_f : list string) : list event :=
  EvLogInfo ("Translating: " ++ args.srctext args)
  :: concat (map (full_batch_events generator models0)
                 (full_batches strip (args.batch_size args) [] src_f))
  ++ concat (map (batch_events generator models0)
                 (last_batch strip (args.batch_size args) src_f))
  ++ map (fun line => EvWrite (line ++ nl))
         (concat (map (batch_translations generator models0)
                      (batches strip (args.batch_size args) src_f))).

(** ** Vocabulary of the statements on paths *)

(** The string holds a slash. *)
Fixpoint has_sep (s : string) : bool :=
  match s with
  | EmptyString => false
  | String c s' => Ascii.eqb c "/" || has_sep s'
  end.

(** Reading back the digits of a formatted integer. *)
Definition parse_int (s : string) : option Z :=
  option_map Z.of_int (NilEmpty.int_of_string s).

(** The number of [Barrier] calls of a method body. *)
Fixpoint barriers (cs : list nlp_overrides.call) : nat :=
  match cs with
  | [] => 0
  | nlp_overrides.Barrier :: cs' => S (barriers cs')
  | _ :: cs' => barriers cs'
  end.

(** The [shutil.move] calls of a method body, in order. *)
Fixpoint moves (cs : list nlp_overrides.call) : list (string * string) :=
  match cs with
  | [] => []
  | nlp_overrides.Move src dst :: cs' => (src, dst) :: moves cs'
  | _ :: cs' => moves cs'
  end.

(** The [os.makedirs] calls of a method body, in order. *)
Fixpoint made_dirs (cs : list nlp_overrides.call) : list string :=
  match cs with
  | [] => []
  | nlp_overrides.MakeDirs path :: cs' => path :: made_dirs cs'
  | _ :: cs' => made_dirs cs'
  end.

(** The state of the process with the given ranks in a model-parallel
    group of [size] processes. *)
Definition process_state (size mp_rank dp_rank : Z) : nlp_overrides.AppState := {|
  nlp_overrides.model_parallel_size := Some size;
  nlp_overrides.model_parallel_rank := Some mp_rank;
  nlp_overrides.data_parallel_rank := Some dp_rank;
  nlp_overrides.data_parallel_size := None |}.

(** The paths [save_to] computes for a rank: where the rank's weights are
    first saved, the folder made for the rank in the temporary directory,
    and where the weights are moved to. *)
Definition staging_path (model_weights_ckpt save_path : string) (mp_rank : Z)
  : string :=
  path_join (dirname save_path)
            ["mp_rank_" +:+ format_0d 2 mp_rank +:+ "_" +:+ model_weights_ckpt].

Definition archive_dir (tmpdir : string) (mp_rank : Z) : string :=
  path_join tmpdir ["mp_rank_" +:+ format_0d 2 mp_rank].

Definition archive_path (model_weights_ckpt tmpdir : string) (mp_rank : Z)
  : string :=
  path_join tmpdir ["mp_rank_" +:+ format_0d 2 mp_rank; model_weights_ckpt].

(** ** Vocabulary of the statements on conversions *)

Section PyvalShape.

Context {obj : Type}.

(** The objects of a nested value, left to right. *)
Fixpoint leaves (v : nlp_overrides.pyval obj) : list obj :=
  match v with
  | nlp_overrides.Obj o => [o]
  | nlp_overrides.PyTuple l | nlp_overrides.PyList l => flat_map leaves l
  end.

End PyvalShape.

(** The nesting of a value, without its objects. *)
#[warnings="-register-all"]
Inductive shape : Type :=
  | LeafShape
  | TupleShape (l : list shape)
  | ListShape (l : list shape).

Fixpoint shape_of {obj : Type} (v : nlp_overrides.pyval obj) : shape :=
  match v with
  | nlp_overrides.Obj _ => LeafShape
  | nlp_overrides.PyTuple l => TupleShape (map shape_of l)
  | nlp_overrides.PyList l => ListShape (map shape_of l)
  end.

(** What [float16_to_fp32] makes of an object: its [float()] when it is a
    half or bfloat16 tensor, the object itself otherwise. *)
Definition as_float {obj : Type} (type_of : obj -> option nlp_overrides.tensor_type)
    (to_float : obj -> obj) (o : obj) : obj :=
  if nlp_overrides.isinstance obj type_of o
       (nlp_overrides._BF16_TYPES ++ nlp_overrides._HALF_TYPES)
  then to_float o else o.

(** No object of the value is an fp32 tensor. *)
Definition no_fp32 {obj : Type} (type_of : obj -> option nlp_overrides.tensor_type)
    (v : nlp_overrides.pyval obj) : Prop :=
  Forall (fun o => nlp_overrides.isinstance obj type_of o nlp_overrides._FLOAT_TYPES
                   = false) (leaves v).

(** No object of the value is a half or bfloat16 tensor. *)
Definition no_half {obj : Type} (type_of : obj -> option nlp_overrides.tensor_type)
    (v : nlp_overrides.pyval obj) : Prop :=
  Forall (fun o => nlp_overrides.isinstance obj type_of o
                     (nlp_overrides._BF16_TYPES ++ nlp_overrides._HALF_TYPES)
                   = false) (leaves v).

(** * Concrete collaborators

    Small tokenizers and models on which the definitions evaluate. *)

Module Examples.

(** A character-level vocabulary: pad 0, unk 1, bos 2, eos 3 and one
    piece per byte from id 4 on. *)
Definition char_ids (s : string) : list Z :=
  map (fun c => 4 + Z.of_nat (nat_of_ascii c)) (list_ascii_of_string s).

Definition ids_chars (ids : list Z) : string :=
  string_of_list_ascii
    (map (fun x => if decide (4 <= x < 260)
                   then ascii_of_nat (Z.to_nat (x - 4))
                   else "?"%char) ids).

Definition char_tokenizer : Tokenizer := {|
  vocab_size := 260; bos_id := 2; eos_id := 3; pad_id := 0; unk_id := 1;
  text_to_ids := char_ids; ids_to_text := ids_chars |}.

Definition char_model : Model := {|
  encoder_tokenizer := char_tokenizer;
  decoder_tokenizer := char_tokenizer;
  source_processor := None;
  target_processor := None |}.

(** The same vocabulary with the end-of-sequence piece reused as padding,
    as tokenizers without a pad piece of their own are commonly set up. *)
Definition eos_pad_tokenizer : Tokenizer := {|
  vocab_size := 260; bos_id := 2; eos_id := 3; pad_id := 3; unk_id := 1;
  text_to_ids := char_ids; ids_to_text := ids_chars |}.

Definition eos_pad_model : Model := {|
  encoder_tokenizer := eos_pad_tokenizer;
  decoder_tokenizer := eos_pad_tokenizer;
  source_processor := None;
  target_processor := None |}.

(** Lines that carry no surrounding blanks are left as they are. *)
Definition strip_clean (line : string) : string := line.

(** A generator that echoes its source rows, and one that loses the
    first row of every batch. *)
Definition echo_search (cfg : GeneratorConfig) (src_ids : tensor)
    (src_mask : mask) : tensor := src_ids.

Definition lossy_search (cfg : GeneratorConfig) (src_ids : tensor)
    (src_mask : mask) : tensor := tail src_ids.

(** A generator that answers every source row with the one id 14, the
    piece of the line-feed byte in the character vocabulary. *)
Definition newline_search (cfg : GeneratorConfig) (src_ids : tensor)
    (src_mask : mask) : tensor := map (fun _ => [14]) src_ids.

Definition args_batch2 : args.t := {|
  args.srctext := "in.txt"; args.tgtout := "out.txt";
  args.batch_size := 2; args.beam_size := 4;
  args.len_pen := 0.5%float; args.max_delta_length := 5 |}.

Definition args_beam0 : args.t := {|
  args.srctext := "in.txt"; args.tgtout := "out.txt";
  args.batch_size := 2; args.beam_size := 0;
  args.len_pen := 0.5%float; args.max_delta_length := 5 |}.

Definition empty_world : world := World ∅ [].

(** A world whose object 0 is a one-row output tensor with an id five
    past the vocabulary size. *)
Definition world_with_oov : world := World {[ 0%nat := [[2; 265; 101; 3]] ]} [].

End Examples.

(** * Concrete process states *)

Module OverridesExamples.

(** Rank 1 of a model-parallel group of two. *)
Definition rank1_of_2 : nlp_overrides.AppState := {|
  nlp_overrides.model_parallel_size := Some 2;
  nlp_overrides.model_parallel_rank := Some 1;
  nlp_overrides.data_parallel_rank := Some 0;
  nlp_overrides.data_parallel_size := Some 4 |}.

Definition rank0_of_2 : nlp_overrides.AppState := {|
  nlp_overrides.model_parallel_size := Some 2;
  nlp_overrides.model_parallel_rank := Some 0;
  nlp_overrides.data_parallel_rank := Some 0;
  nlp_overrides.data_parallel_size := Some 4 |}.

End OverridesExamples.

(** * Further command lines *)

Module ScriptExamples.

(** A batch size of zero. *)
Definition args_batch0 : args.t := {|
  args.srctext := "in.txt"; args.tgtout := "out.txt";
  args.batch_size := 0; args.beam_size := 4;
  args.len_pen := 0.5%float; args.max_delta_length := 5 |}.

End ScriptExamples.

(** * Concrete tensors

    Objects that are a tensor type with an integer payload, or an integer
    that is no tensor; the casts change the type and keep the payload. *)

Module PrecisionExamples.

Inductive toy : Type :=
  | ToyTensor (ty : nlp_overrides.tensor_type) (payload : Z)
  | ToyInt (n : Z).

Definition toy_type (o : toy) : option nlp_overrides.tensor_type :=
  match o with
  | ToyTensor ty _ => Some ty
  | ToyInt _ => None
  end.

Definition toy_is_variable (o : toy) : bool :=
  match o with
  | ToyTensor _ _ => true
  | ToyInt _ => false
  end.

Definition on_cuda (ty : nlp_overrides.tensor_type) : bool :=
  match ty with
  | nlp_overrides.CudaFloatTensor | nlp_overrides.CudaHalfTensor
  | nlp_overrides.CudaBFloat16Tensor => true
  | _ => false
  end.

Definition toy_cast (cpu cuda : nlp_overrides.tensor_type) (o : toy) : toy :=
  match o with
  | ToyTensor ty payload => ToyTensor (if on_cuda ty then cuda else cpu) payload
  | ToyInt n => ToyInt n
  end.

Definition toy_float : toy -> toy :=
  toy_cast nlp_overrides.FloatTensor nlp_overrides.CudaFloatTensor.
Definition toy_half : toy -> toy :=
  toy_cast nlp_overrides.HalfTensor nlp_overrides.CudaHalfTensor.
Definition toy_bfloat16 : toy -> toy :=
  toy_cast nlp_overrides.BFloat16Tensor nlp_overrides.CudaBFloat16Tensor.

(** A batch: token ids (an integer tensor), fp32 activations on the GPU, a
    list holding a half tensor and a plain integer. *)
Definition batch : nlp_overrides.pyval toy :=
  nlp_overrides.PyTuple
    [nlp_overrides.Obj (ToyTensor (nlp_overrides.OtherTensor "torch.LongTensor") 7);
     nlp_overrides.Obj (ToyTensor nlp_overrides.CudaFloatTensor 3);
     nlp_overrides.PyList
       [nlp_overrides.Obj (ToyTensor nlp_overrides.HalfTensor 5);
        nlp_overrides.Obj (ToyInt 1)]].

(** Inputs without any fp32 tensor. *)
Definition id_batch : nlp_overrides.pyval toy :=
  nlp_overrides.PyTuple
    [nlp_overrides.Obj (ToyTensor (nlp_overrides.OtherTensor "torch.LongTensor") 7);
     nlp_overrides.PyList [nlp_overrides.Obj (ToyInt 1)]].

(** A network that returns its positional arguments as a tuple. *)
Definition echo_call (net : unit) (inputs : list (nlp_overrides.pyval toy))
    (kw : unit) : nlp_overrides.pyval toy :=
  nlp_overrides.PyTuple inputs.

Definition toy_data (o : toy) : toy := o.

(** The module [forward] is run on in the examples: built with precision
    16 over the echoing network. *)
Definition half_module : nlp_overrides.Float16Module toy unit := {|
  nlp_overrides.module := tt;
  nlp_overrides.float16_convertor := fun val => nlp_overrides.Obj (toy_half val) |}.

End PrecisionExamples.

(** ** Further vocabulary on the script *)

(** The batches the generator is called on by a trace, in order. *)
Fixpoint generate_calls (evs : list event) : list (tensor * mask) :=
  match evs with
  | [] => []
  | EvGenerate src_ids src_mask :: evs' => (src_ids, src_mask) :: generate_calls evs'
  | _ :: evs' => generate_calls evs'
  end.

(** * Properties *)

(** ** Input preparation *)

Lemma wrap_sentence_eq model txt :
  wrap_sentence model txt =
  bos_id (encoder_tokenizer model) :: sentence_ids model txt
    ++ [eos_id (encoder_tokenizer model)].
Proof. reflexivity. Qed.

Lemma length_wrap_sentence model txt :
  length (wrap_sentence model txt) = S (S (length (sentence_ids model txt))).
Proof. rewrite wrap_sentence_eq. simpl. rewrite length_app. simpl. lia. Qed.

Lemma collect_inputs {A B} (f : A -> B) (l : list A) (acc : list B) :
  foldl (fun inputs x => inputs ++ [f x]) acc l = acc ++ map f l.
Proof.
  revert acc. induction l as [|x l IH]; intros acc; simpl.
  - by rewrite app_nil_r.
  - rewrite IH. by rewrite <- app_assoc.
Qed.

Lemma foldl_max_list (x : nat) (l : list nat) :
  foldl Nat.max x l = max_list (x :: l).
Proof.
  revert x. induction l as [|y l IH]; intros x; simpl.
  - lia.
  - rewrite IH. simpl. lia.
Qed.

Lemma py_max_nonempty (l : list nat) :
  l ≠ [] -> py_max l = Ok (max_list l).
Proof.
  destruct l as [|x l]; [done|]. intros _. unfold py_max.
  by rewrite foldl_max_list.
Qed.

Lemma set_row_prefix_blank (m : nat) (pad : Z) (txt : list Z) (done_ rest : tensor) :
  (length txt ≤ m)%nat ->
  set_row_prefix (done_ ++ replicate m pad :: rest) (length done_) txt
  = Ok (done_ ++ pad_row m pad txt :: rest).
Proof.
  intros Hlen. unfold set_row_prefix.
  rewrite list_lookup_middle by done.
  unfold set_prefix. rewrite length_replicate.
  rewrite decide_True by done.
  cbn [mbind result_bind].
  rewrite drop_replicate.
  rewrite insert_app_r_alt by lia.
  rewrite Nat.sub_diag. reflexivity.
Qed.

(** The second loop of [input_preprocess] never raises on rows of a common
    width that every wrapped sentence fits in, and leaves each sentence at
    the head of its row. *)
Lemma fill_rows (m : nat) (pad : Z) (inputs : list (list Z)) (done_ : tensor) :
  Forall (fun txt => (length txt ≤ m)%nat) inputs ->
  for_loop (fun src_ids_ '(i, txt) => set_row_prefix src_ids_ i txt)
           (enumerate_from (length done_) inputs)
           (done_ ++ replicate (length inputs) (replicate m pad))
  = Ok (done_ ++ map (pad_row m pad) inputs).
Proof.
  revert done_. induction inputs as [|txt inputs IH]; intros done_ Hfit.
  - reflexivity.
  - apply Forall_cons in Hfit as [Hlen Hfit].
    cbn [enumerate_from for_loop length replicate map].
    rewrite set_row_prefix_blank by done.
    cbn [mbind result_bind].
    specialize (IH (done_ ++ [pad_row m pad txt]) Hfit).
    rewrite length_app in IH. cbn [length] in IH.
    rewrite Nat.add_1_r in IH.
    rewrite <- !app_assoc in IH. exact IH.
Qed.

Lemma input_preprocess_eq (model : Model) (text : list string) :
  text ≠ [] ->
  let src := map (fun txt => pad_row (batch_max_len model text)
                                     (pad_id (encoder_tokenizer model))
                                     (wrap_sentence model txt)) text in
  input_preprocess text model =
  Ok (src, map (map (fun x => negb (x =? pad_id (encoder_tokenizer model)))) src).
Proof.
  intros Hne src. unfold input_preprocess.
  rewrite collect_inputs. cbn [app].
  rewrite py_max_nonempty by (by destruct text).
  cbn [mbind result_bind].
  rewrite map_map. fold (batch_max_len model text).
  rewrite length_map.
  pose proof (fill_rows (batch_max_len model text)
                (pad_id (encoder_tokenizer model))
                (map (wrap_sentence model) text) []) as Hfill.
  cbn [app length] in Hfill. rewrite length_map in Hfill.
  unfold enumerate, np_full. rewrite Hfill.
  - cbn [mbind result_bind]. rewrite map_map. reflexivity.
  - apply Forall_forall. intros ids Hin.
    apply list_elem_of_In, in_map_iff in Hin as (txt & <- & Hin).
    apply max_list_elem_of_le.
    apply list_elem_of_In, in_map_iff. eauto.
Qed.

Lemma batch_max_len_attained (model : Model) (text : list string) :
  text ≠ [] ->
  ∃ txt, txt ∈ text ∧ batch_max_len model text = length (wrap_sentence model txt).
Proof.
  intros Hne. unfold batch_max_len.
  assert (map (fun txt => length (wrap_sentence model txt)) text ≠ []) as Hne'
    by (by destruct text).
  apply max_list_elem_of, list_elem_of_In, in_map_iff in Hne' as (txt & Heq & Hin).
  exists txt. split; [by apply list_elem_of_In | done].
Qed.

Lemma batch_max_len_bound (model : Model) (text : list string) (txt : string) :
  txt ∈ text -> (length (wrap_sentence model txt) ≤ batch_max_len model text)%nat.
Proof.
  intros Hin. apply max_list_elem_of_le, list_elem_of_In, in_map_iff.
  exists txt. split; [done | by apply list_elem_of_In].
Qed.

(** C2 — For a non-empty list of sentences, input preparation returns an id
    matrix with one row per sentence; row [i] is the bos id, the token ids
    of sentence [i], the eos id, and then the pad id in every remaining
    cell up to the length of the longest wrapped sentence of this batch. *)
Theorem input_preprocess_rows (model : Model) (text : list string) :
  text ≠ [] ->
  ∃ src src_mask max_len,
    input_preprocess text model = Ok (src, src_mask)
    ∧ length src = length text
    ∧ (∃ txt, txt ∈ text ∧ max_len = length (wrap_sentence model txt))
    ∧ (∀ txt, txt ∈ text -> (length (wrap_sentence model txt) ≤ max_len)%nat)
    ∧ ∀ i txt, text !! i = Some txt ->
        length (wrap_sentence model txt) = S (S (length (sentence_ids model txt)))
        ∧ src !! i = Some
            (bos_id (encoder_tokenizer model) :: sentence_ids model txt
             ++ eos_id (encoder_tokenizer model)
                :: replicate (max_len - length (wrap_sentence model txt))
                             (pad_id (encoder_tokenizer model))).
Proof.
  intros Hne. eexists _, _, (batch_max_len model text).
  split; [by apply input_preprocess_eq|].
  split; [by rewrite length_map|].
  split; [by apply batch_max_len_attained|].
  split; [by intros; apply batch_max_len_bound|].
  intros i txt Hi. split; [apply length_wrap_sentence|].
  rewrite list_lookup_fmap, Hi. cbn [fmap option_fmap option_map].
  unfold pad_row. rewrite wrap_sentence_eq at 1.
  cbn [app]. by rewrite <- app_assoc.
Qed.

Lemma input_preprocess_rows_witness :
  ["ab"; "c"; "defg"] ≠ [] ∧
  ∃ src src_mask max_len,
    input_preprocess ["ab"; "c"; "defg"] Examples.char_model = Ok (src, src_mask)
    ∧ length src = 3%nat
    ∧ (∃ txt, txt ∈ ["ab"; "c"; "defg"]
              ∧ max_len = length (wrap_sentence Examples.char_model txt))
    ∧ (∀ txt, txt ∈ ["ab"; "c"; "defg"] ->
              (length (wrap_sentence Examples.char_model txt) ≤ max_len)%nat)
    ∧ ∀ i txt, ["ab"; "c"; "defg"] !! i = Some txt ->
        length (wrap_sentence Examples.char_model txt)
        = S (S (length (sentence_ids Examples.char_model txt)))
        ∧ src !! i = Some
            (2 :: sentence_ids Examples.char_model txt
             ++ 3 :: replicate (max_len - length (wrap_sentence Examples.char_model txt)) 0).
Proof.
  split; [discriminate|].
  apply (input_preprocess_rows Examples.char_model ["ab"; "c"; "defg"]).
  discriminate.
Defined.

Example input_preprocess_three_sentences :
  input_preprocess ["ab"; "c"; "defg"] Examples.char_model
  = Ok ([[2; 101; 102; 3; 0; 0]; [2; 103; 3; 0; 0; 0]; [2; 104; 105; 106; 107; 3]],
        [[true; true; true; true; false; false];
         [true; true; true; false; false; false];
         [true; true; true; true; true; true]]).
Proof. reflexivity. Qed.

Lemma mask_of_real_tokens (pad : Z) (ids : list Z) :
  pad ∉ ids ->
  map (fun x => negb (x =? pad)) ids = replicate (length ids) true.
Proof.
  induction ids as [|x ids IH]; intros Hnot; [done|].
  apply not_elem_of_cons in Hnot as [Hx Hnot].
  cbn [map length replicate]. rewrite IH by done.
  apply Z.eqb_neq in Hx. rewrite Z.eqb_sym, Hx. reflexivity.
Qed.

Lemma mask_of_padding (pad : Z) (k : nat) :
  map (fun x => negb (x =? pad)) (replicate k pad) = replicate k false.
Proof.
  induction k as [|k IH]; [done|].
  cbn [replicate map]. by rewrite IH, Z.eqb_refl.
Qed.

Lemma count_true_marks (n k : nat) :
  count_true (replicate n true ++ replicate k false) = n.
Proof.
  unfold count_true. rewrite filter_app, length_app.
  assert (forall m, filter (fun b => b = true) (replicate m true) = replicate m true) as Ht.
  { induction m as [|m IH]; [done|]. cbn [replicate].
    rewrite filter_cons_True by done. by rewrite IH. }
  assert (forall m, filter (fun b => b = true) (replicate m false) = []) as Hf.
  { induction m as [|m IH]; [done|]. cbn [replicate].
    rewrite filter_cons_False by done. exact IH. }
  rewrite Ht, Hf, length_replicate. cbn [length]. lia.
Qed.

(** The mask is computed from the padded matrix: a cell is set exactly when
    its id differs from the pad id. *)
Lemma input_preprocess_mask (model : Model) (text : list string) src src_mask :
  input_preprocess text model = Ok (src, src_mask) ->
  src_mask = map (map (fun x => negb (x =? pad_id (encoder_tokenizer model)))) src.
Proof.
  destruct (decide (text = [])) as [->|Hne]; [discriminate|].
  rewrite input_preprocess_eq by done. intros [= <- <-]. reflexivity.
Qed.

(** C3 (amended) — For a non-empty batch in which no real token of any
    wrapped sentence (bos, token ids, eos) equals the pad id, the source
    mask is set exactly on the cells of each row that hold the sentence's
    real tokens and clear exactly on the padded cells, so the number of set
    cells of row [i] is the wrapped length of sentence [i]. *)
Theorem src_mask_marks_real_tokens (model : Model) (text : list string) :
  text ≠ [] ->
  Forall (fun txt => pad_id (encoder_tokenizer model) ∉ wrap_sentence model txt) text ->
  ∃ src src_mask,
    input_preprocess text model = Ok (src, src_mask)
    ∧ marks_sentences model text src_mask.
Proof.
  intros Hne Hpad. eexists _, _. split; [by apply input_preprocess_eq|].
  split; [by rewrite !length_map|].
  intros i txt Hi. eexists. split.
  { rewrite !list_lookup_fmap, Hi. reflexivity. }
  assert (pad_id (encoder_tokenizer model) ∉ wrap_sentence model txt) as Hnot.
  { eapply Forall_forall in Hpad; [exact Hpad|].
    apply list_elem_of_lookup. eauto. }
  unfold pad_row. rewrite map_app.
  rewrite mask_of_real_tokens by done. rewrite mask_of_padding.
  split; [reflexivity | apply count_true_marks].
Qed.

Lemma src_mask_marks_real_tokens_witness :
  ["ab"; "c"; "defg"] ≠ []
  ∧ Forall (fun txt => pad_id (encoder_tokenizer Examples.char_model)
                       ∉ wrap_sentence Examples.char_model txt)
           ["ab"; "c"; "defg"]
  ∧ ∃ src src_mask,
      input_preprocess ["ab"; "c"; "defg"] Examples.char_model = Ok (src, src_mask)
      ∧ marks_sentences Examples.char_model ["ab"; "c"; "defg"] src_mask.
Proof.
  assert (Forall (fun txt => pad_id (encoder_tokenizer Examples.char_model)
                             ∉ wrap_sentence Examples.char_model txt)
                 ["ab"; "c"; "defg"]) as Hpad.
  { repeat constructor; vm_compute; intros H;
      repeat (apply elem_of_cons in H as [H|H]; [discriminate|]);
      by apply elem_of_nil in H. }
  split; [discriminate|]. split; [exact Hpad|].
  apply (src_mask_marks_real_tokens Examples.char_model ["ab"; "c"; "defg"]);
    [discriminate | exact Hpad].
Defined.

(** C3 (as stated) fails when a real token carries the pad id: with the
    eos piece reused as padding, the eos cell of every row is clear in the
    mask, so the longest row, which has no padding at all, has five set
    cells for a wrapped length of six. *)
Lemma src_mask_hides_pad_valued_token :
  input_preprocess ["ab"; "c"; "defg"] Examples.eos_pad_model
  = Ok ([[2; 101; 102; 3; 3; 3]; [2; 103; 3; 3; 3; 3]; [2; 104; 105; 106; 107; 3]],
        [[true; true; true; false; false; false];
         [true; true; false; false; false; false];
         [true; true; true; true; true; false]])
  ∧ ¬ marks_sentences Examples.eos_pad_model ["ab"; "c"; "defg"]
        [[true; true; true; false; false; false];
         [true; true; false; false; false; false];
         [true; true; true; true; true; false]].
Proof.
  split; [reflexivity|].
  intros [_ Hrows].
  destruct (Hrows 2%nat "defg" eq_refl) as (row & Hrow & _ & Hcount).
  injection Hrow as <-. vm_compute in Hcount. discriminate.
Qed.

(** C7 — A sentence without tokens (the empty sentence) is prepared as the
    bare bos, eos pair: that is its wrapped sequence, and its row in any
    batch is bos, eos and then padding. *)
Theorem empty_sentence_is_bos_eos (model : Model) (txt : string) :
  sentence_ids model txt = [] ->
  wrap_sentence model txt
  = [bos_id (encoder_tokenizer model); eos_id (encoder_tokenizer model)]
  ∧ ∀ text i, text !! i = Some txt ->
      ∃ src src_mask,
        input_preprocess text model = Ok (src, src_mask)
        ∧ src !! i = Some
            (bos_id (encoder_tokenizer model) :: eos_id (encoder_tokenizer model)
             :: replicate (batch_max_len model text - 2)
                          (pad_id (encoder_tokenizer model))).
Proof.
  intros Hempty.
  assert (wrap_sentence model txt
          = [bos_id (encoder_tokenizer model); eos_id (encoder_tokenizer model)])
    as Hwrap by (by rewrite wrap_sentence_eq, Hempty).
  split; [exact Hwrap|].
  intros text i Hi. eexists _, _. split.
  - apply input_preprocess_eq. intros ->. discriminate.
  - rewrite list_lookup_fmap, Hi. cbn [fmap option_fmap option_map].
    unfold pad_row. rewrite Hwrap. reflexivity.
Qed.

Lemma empty_sentence_is_bos_eos_witness :
  sentence_ids Examples.char_model "" = []
  ∧ wrap_sentence Examples.char_model "" = [2; 3]
  ∧ ∀ text i, text !! i = Some "" ->
      ∃ src src_mask,
        input_preprocess text Examples.char_model = Ok (src, src_mask)
        ∧ src !! i = Some
            (2 :: 3 :: replicate (batch_max_len Examples.char_model text - 2) 0).
Proof.
  split; [reflexivity|].
  apply (empty_sentence_is_bos_eos Examples.char_model "").
  reflexivity.
Defined.

(** C10 — On an empty list of sentences input preparation raises (the
    maximum is taken over an empty collection); whenever it returns, the
    batch was not empty and the matrix has one row per sentence, so a
    zero-row matrix is never returned. *)
Theorem input_preprocess_empty_raises (model : Model) :
  input_preprocess [] model = Raise ValueError
  ∧ ∀ text,
      match input_preprocess text model with
      | Ok (src, src_mask) =>
          text ≠ [] ∧ length src = length text ∧ length src_mask = length text
          ∧ src ≠ []
      | Raise e => text = [] ∧ e = ValueError
      end.
Proof.
  split; [reflexivity|].
  intros text. destruct (decide (text = [])) as [->|Hne].
  - by cbn.
  - rewrite input_preprocess_eq by done.
    rewrite !length_map. repeat split; [done|].
    by destruct text.
Qed.

(** ** Runs of the monad *)

Lemma world_eta (w : world) : World (heap w) (trace w) = w.
Proof. by destruct w. Qed.

Lemma bind_run {A B} (m : M A) (k : A -> M B) (w w' : world) (a : A) :
  m w = (w', Ok a) -> (m ≫= k) w = k a w'.
Proof. intros H. unfold mbind, M_bind. by rewrite H. Qed.

Lemma bind_raise {A B} (m : M A) (k : A -> M B) (w w' : world) (e : exn) :
  m w = (w', Raise e) -> (m ≫= k) w = (w', Raise e).
Proof. intros H. unfold mbind, M_bind. by rewrite H. Qed.

(** A loop of calls to a pure collaborator: each element is reported and
    converted once, in order; the heap is not touched. *)
Lemma mapM_calls {A B} (ev : A -> event) (f : A -> B) (xs : list A) (w : world) :
  mapM (M:=M) (fun x => emit (ev x);; mret (f x)) xs w
  = (World (heap w) (trace w ++ map ev xs), Ok (map f xs)).
Proof.
  revert w. induction xs as [|x xs IH]; intros w.
  - cbn. by rewrite app_nil_r, world_eta.
  - cbn [mapM map]. unfold mbind at 1, M_bind at 1.
    unfold mbind at 1, M_bind at 1. unfold emit at 1.
    unfold mret at 1, M_ret at 1.
    unfold mbind at 1, M_bind at 1.
    change (fix go (l : list A) : M (list B) :=
              match l with
              | [] => mret []
              | x0 :: l0 => (emit (ev x0);; mret (f x0)) ≫= λ y, go l0 ≫= λ k, mret (y :: k)
              end) with (mapM (M:=M) (fun x => emit (ev x);; mret (f x))).
    rewrite IH. cbn [heap trace].
    unfold mret, M_ret. by rewrite <- app_assoc.
Qed.

(** ** Output post-processing *)

Lemma filter_predicted_ids_run (tokenizer : Tokenizer) (ids : loc) (t : tensor)
    (w : world) :
  heap w !! ids = Some t ->
  filter_predicted_ids tokenizer ids w
  = (World (<[ids := clamp_tensor tokenizer t]> (heap w)) (trace w), Ok ids).
Proof.
  intros Hids. unfold filter_predicted_ids.
  erewrite bind_run by (unfold load; rewrite Hids; reflexivity).
  reflexivity.
Qed.

(** A run of [nmt_postprocess] on the tensor object [beam_results]. *)
Lemma nmt_postprocess_run (model : Model) (beam_results : loc) (t : tensor)
    (w : world) :
  heap w !! beam_results = Some t ->
  let rows := clamp_tensor (decoder_tokenizer model) t in
  nmt_postprocess beam_results model w
  = (World (<[beam_results := rows]> (heap w))
           (trace w ++ postprocess_events model rows),
     Ok (translations_of model rows)).
Proof.
  intros Hres rows. unfold nmt_postprocess.
  erewrite bind_run by (by apply filter_predicted_ids_run).
  erewrite bind_run
    by (unfold load; cbn [heap]; rewrite lookup_insert_eq; reflexivity).
  erewrite bind_run by apply mapM_calls.
  cbn [heap trace]. fold rows.
  unfold translations_of, postprocess_events.
  destruct (target_processor model) as [p|].
  - rewrite mapM_calls. cbn [heap trace]. by rewrite <- app_assoc.
  - unfold mret, M_ret. by rewrite app_nil_r.
Qed.

Lemma ids_to_text_calls_app (evs evs' : list event) :
  ids_to_text_calls (evs ++ evs') = ids_to_text_calls evs ++ ids_to_text_calls evs'.
Proof.
  induction evs as [|e evs IH]; [done|].
  destruct e; cbn; by rewrite ?IH.
Qed.

Lemma ids_to_text_calls_postprocess (model : Model) (rows : tensor) :
  ids_to_text_calls (postprocess_events model rows) = rows.
Proof.
  unfold postprocess_events. rewrite ids_to_text_calls_app.
  assert (ids_to_text_calls (map EvIdsToText rows) = rows) as ->.
  { induction rows as [|r rows IH]; [done|]. cbn. by rewrite IH. }
  assert (forall l : list string,
            ids_to_text_calls (map (fun s => EvDetokenize (split " " s)) l) = []) as Hd.
  { induction l as [|s l IH]; [done|]. exact IH. }
  destruct (target_processor model); [rewrite Hd|]; by rewrite app_nil_r.
Qed.

Lemma clamp_tensor_cells (tokenizer : Tokenizer) (t : tensor) :
  Forall2 (Forall2 (fun x y =>
      (vocab_size tokenizer <= x -> y = unk_id tokenizer)
      ∧ (x < vocab_size tokenizer -> y = x)))
    t (clamp_tensor tokenizer t).
Proof.
  unfold clamp_tensor. induction t as [|row t IH]; [constructor|].
  cbn [map]. constructor; [|exact IH]. clear IH.
  induction row as [|x row IH]; [constructor|].
  cbn [map]. constructor; [|exact IH].
  unfold clamp. rewrite Z.geb_leb.
  destruct (Z.leb_spec (vocab_size tokenizer) x); split; intros; (done || lia).
Qed.

(** C1 — Post-processing never raises on a tensor of output ids; the rows
    it hands to [ids_to_text] (and from which the returned texts are made)
    are the rows of the input in which every id greater than or equal to
    the vocabulary size has been replaced by the unknown-token id and every
    id below the vocabulary size is unchanged. *)
Theorem nmt_postprocess_clamps_before_text (model : Model) (beam_results : loc)
    (t : tensor) (w : world) :
  heap w !! beam_results = Some t ->
  ∃ w' rows evs,
    nmt_postprocess beam_results model w = (w', Ok (translations_of model rows))
    ∧ trace w' = trace w ++ evs
    ∧ ids_to_text_calls evs = rows
    ∧ Forall2 (Forall2 (fun x y =>
          (vocab_size (decoder_tokenizer model) <= x ->
             y = unk_id (decoder_tokenizer model))
          ∧ (x < vocab_size (decoder_tokenizer model) -> y = x)))
        t rows.
Proof.
  intros Hres. eexists _, _, _.
  split; [by apply nmt_postprocess_run|].
  split; [reflexivity|].
  split; [apply ids_to_text_calls_postprocess | apply clamp_tensor_cells].
Qed.

Lemma nmt_postprocess_clamps_before_text_witness :
  heap Examples.world_with_oov !! 0%nat = Some [[2; 265; 101; 3]]
  ∧ ∃ w' rows evs,
      nmt_postprocess 0%nat Examples.char_model Examples.world_with_oov
      = (w', Ok (translations_of Examples.char_model rows))
      ∧ trace w' = trace Examples.world_with_oov ++ evs
      ∧ ids_to_text_calls evs = rows
      ∧ Forall2 (Forall2 (fun x y => (260 <= x -> y = 1) ∧ (x < 260 -> y = x)))
          [[2; 265; 101; 3]] rows.
Proof.
  split; [reflexivity|].
  apply (nmt_postprocess_clamps_before_text Examples.char_model 0%nat
           [[2; 265; 101; 3]] Examples.world_with_oov).
  reflexivity.
Defined.

Example nmt_postprocess_oov :
  nmt_postprocess 0%nat Examples.char_model Examples.world_with_oov
  = (World {[ 0%nat := [[2; 1; 101; 3]] ]} [EvIdsToText [2; 1; 101; 3]],
     Ok ["??a?"]).
Proof. reflexivity. Qed.

(** C6 (as stated) fails: the masked assignment writes into the caller's
    tensor, so after the call the array that was passed in holds the
    unknown-token id where it held an id past the vocabulary. *)
Lemma nmt_postprocess_overwrites_input :
  heap Examples.world_with_oov !! 0%nat = Some [[2; 265; 101; 3]]
  ∧ heap (fst (nmt_postprocess 0%nat Examples.char_model Examples.world_with_oov))
      !! 0%nat = Some [[2; 1; 101; 3]]
  ∧ heap (fst (nmt_postprocess 0%nat Examples.char_model Examples.world_with_oov))
      !! 0%nat ≠ heap Examples.world_with_oov !! 0%nat.
Proof. split; [reflexivity|]. split; [reflexivity|]. discriminate. Qed.

Lemma clamp_tensor_in_vocabulary (tokenizer : Tokenizer) (t : tensor) :
  Forall (Forall (fun x => x < vocab_size tokenizer)) t ->
  clamp_tensor tokenizer t = t.
Proof.
  unfold clamp_tensor. induction 1 as [|row t Hrow _ IH]; [done|].
  cbn [map]. rewrite IH. f_equal.
  induction Hrow as [|x row Hx _ IHrow]; [done|].
  cbn [map]. rewrite IHrow. f_equal.
  unfold clamp. rewrite Z.geb_leb. destruct (Z.leb_spec (vocab_size tokenizer) x); [lia|done].
Qed.

(** C6 (amended) — Post-processing returns texts that are a function of
    the ids it is given and of the model, converts each row once (no
    retry), and has one effect on the heap: the input id array is
    overwritten in place with its clamped ids, every other object being
    left as it was; the input array is left unchanged when all its ids are
    below the vocabulary size. *)
Theorem nmt_postprocess_effect (model : Model) (beam_results : loc) (t : tensor)
    (w : world) :
  heap w !! beam_results = Some t ->
  ∃ w' evs,
    nmt_postprocess beam_results model w
    = (w', Ok (translations_of model (clamp_tensor (decoder_tokenizer model) t)))
    ∧ heap w' = <[beam_results := clamp_tensor (decoder_tokenizer model) t]> (heap w)
    ∧ (∀ l, l ≠ beam_results -> heap w' !! l = heap w !! l)
    ∧ (Forall (Forall (fun x => x < vocab_size (decoder_tokenizer model))) t ->
       heap w' = heap w)
    ∧ trace w' = trace w ++ evs
    ∧ ids_to_text_calls evs = clamp_tensor (decoder_tokenizer model) t.
Proof.
  intros Hres. eexists _, _.
  split; [by apply nmt_postprocess_run|]. cbn [heap trace].
  split; [reflexivity|].
  split; [by intros l Hl; rewrite lookup_insert_ne|].
  split.
  { intros Hin. rewrite clamp_tensor_in_vocabulary by done. by apply insert_id. }
  split; [reflexivity | apply ids_to_text_calls_postprocess].
Qed.

Lemma nmt_postprocess_effect_witness :
  heap Examples.world_with_oov !! 0%nat = Some [[2; 265; 101; 3]]
  ∧ ∃ w' evs,
      nmt_postprocess 0%nat Examples.char_model Examples.world_with_oov
      = (w', Ok (translations_of Examples.char_model
                   (clamp_tensor Examples.char_tokenizer [[2; 265; 101; 3]])))
      ∧ heap w' = <[0%nat := clamp_tensor Examples.char_tokenizer [[2; 265; 101; 3]]]>
                    (heap Examples.world_with_oov)
      ∧ (∀ l, l ≠ 0%nat -> heap w' !! l = heap Examples.world_with_oov !! l)
      ∧ (Forall (Forall (fun x => x < 260)) [[2; 265; 101; 3]] ->
         heap w' = heap Examples.world_with_oov)
      ∧ trace w' = trace Examples.world_with_oov ++ evs
      ∧ ids_to_text_calls evs = clamp_tensor Examples.char_tokenizer [[2; 265; 101; 3]].
Proof.
  split; [reflexivity|].
  apply (nmt_postprocess_effect Examples.char_model 0%nat [[2; 265; 101; 3]]
           Examples.world_with_oov).
  reflexivity.
Defined.
(** ** Concatenation of strings *)

Lemma str_app_cons (c : ascii) (s t : string) :
  String c s +:+ t = String c (s +:+ t).
Proof. reflexivity. Qed.

Lemma str_app_nil_l (t : string) : "" +:+ t = t.
Proof. reflexivity. Qed.

Lemma str_app_nil_r (s : string) : s +:+ "" = s.
Proof. induction s as [|c s IH]; [done|]. by rewrite str_app_cons, IH. Qed.

Lemma str_app_assoc (a b c : string) : (a +:+ b) +:+ c = a +:+ (b +:+ c).
Proof. induction a as [|x a IH]; [done|]. by rewrite !str_app_cons, IH. Qed.


(** ** The driver *)

Lemma translate_batch_run (generator : tensor -> mask -> tensor) (models0 : Model)
    (batch : list string) (w : world) :
  batch ≠ [] ->
  ∃ h', translate_batch generator models0 batch w
        = (World h' (trace w ++ batch_events generator models0 batch),
           Ok (batch_translations generator models0 batch)).
Proof.
  intros Hne. unfold translate_batch, batch_translations, batch_events, batch_rows.
  rewrite (input_preprocess_eq models0 batch Hne). cbv zeta.
  set (src := map _ batch). set (src_mask := map _ src).
  eexists.
  erewrite bind_run by reflexivity. cbn beta iota.
  erewrite bind_run by reflexivity.
  erewrite bind_run by reflexivity.
  rewrite (nmt_postprocess_run models0 _ (generator src src_mask))
    by (cbn [heap]; apply lookup_insert_eq).
  cbn [heap trace]. rewrite <- app_assoc. reflexivity.
Qed.

Lemma emit_run (e : event) (w : world) :
  emit e w = (World (heap w) (trace w ++ [e]), Ok tt).
Proof. reflexivity. Qed.

Section MainRun.

Variable strip : string -> string.
Variable args : args.t.
Variable models0 : Model.
Variable generator : tensor -> mask -> tensor.

Let batch_size := args.batch_size args.

Lemma loop_body_run (cur tgt : list string) (cnt : nat) (line : string)
    (w : world) :
  let cur' := cur ++ [strip line] in
  ∃ h',
    loop_body strip args models0 generator (Vars cur tgt cnt) line w
    = if decide (Z.of_nat (length cur') = batch_size)
      then (World h' (trace w ++ full_batch_events generator models0 cur'),
            Ok (Vars [] (tgt ++ batch_translations generator models0 cur')
                     (cnt + 1)%nat))
      else (World h' (trace w), Ok (Vars cur' tgt (cnt + 1)%nat)).
Proof.
  intros cur'. unfold loop_body. cbv zeta. fold cur'. fold batch_size.
  destruct (decide (Z.of_nat (length cur') = batch_size)) as [Hfull|Hpart].
  - destruct (translate_batch_run generator models0 cur' w) as [h' Hrun].
    { unfold cur'. by destruct cur. }
    exists h'. unfold full_batch_events.
    destruct (decide (length (batch_translations generator models0 cur')
                      ≠ length cur')) as [Hmis|Hok].
    + erewrite bind_run; cycle 1.
      { erewrite bind_run by exact Hrun.
        rewrite decide_True by done.
        erewrite bind_run; cycle 1.
        { erewrite bind_run by apply emit_run.
          erewrite bind_run by apply emit_run.
          erewrite bind_run by apply emit_run.
          apply emit_run. }
        reflexivity. }
      cbn [heap trace]. unfold mret, M_ret, mismatch_report.
      by rewrite <- !app_assoc.
    + erewrite bind_run; cycle 1.
      { erewrite bind_run by exact Hrun.
        rewrite decide_False by done.
        erewrite bind_run by reflexivity.
        reflexivity. }
      unfold mret, M_ret. by rewrite app_nil_r.
  - exists (heap w). rewrite world_eta. reflexivity.
Qed.

Lemma loop_run (src_f : list string) (cur tgt : list string) (cnt : nat)
    (w : world) :
  ∃ h',
    for_loop (loop_body strip args models0 generator) src_f (Vars cur tgt cnt) w
    = (World h' (trace w ++ concat (map (full_batch_events generator models0)
                                       (full_batches strip batch_size cur src_f))),
       Ok (Vars (leftover strip batch_size cur src_f)
                (tgt ++ concat (map (batch_translations generator models0)
                                    (full_batches strip batch_size cur src_f)))
                (cnt + length src_f)%nat)).
Proof.
  revert cur tgt cnt w.
  induction src_f as [|line src_f IH]; intros cur tgt cnt w.
  - exists (heap w). cbn. rewrite !app_nil_r, Nat.add_0_r, world_eta. reflexivity.
  - destruct (loop_body_run cur tgt cnt line w) as [h1 Hbody].
    cbn [for_loop full_batches leftover length].
    destruct (decide (Z.of_nat (length (cur ++ [strip line])) = batch_size))
      as [Hfull|Hpart].
    + erewrite bind_run by exact Hbody.
      destruct (IH [] (tgt ++ batch_translations generator models0 (cur ++ [strip line]))
                   (cnt + 1)%nat
                   (World h1 (trace w ++ full_batch_events generator models0
                                               (cur ++ [strip line]))))
        as [h' Hrest].
      exists h'. rewrite Hrest. cbn [heap trace map concat].
      rewrite <- !app_assoc. do 3 f_equal. lia.
    + erewrite bind_run by exact Hbody.
      destruct (IH (cur ++ [strip line]) tgt (cnt + 1)%nat (World h1 (trace w)))
        as [h' Hrest].
      exists h'. rewrite Hrest. cbn [heap trace]. do 3 f_equal. lia.
Qed.

Lemma last_batch_step_run (cur tgt : list string) (cnt : nat) (w : world) :
  let last := if decide (0 < length cur)%nat then [cur] else [] in
  ∃ h',
    last_batch_step models0 generator (Vars cur tgt cnt) w
    = (World h' (trace w ++ concat (map (batch_events generator models0) last)),
       Ok (Vars cur
                (tgt ++ concat (map (batch_translations generator models0) last))
                cnt)).
Proof.
  intros last. unfold last, last_batch_step.
  destruct (decide (0 < length cur)%nat) as [Hsome|Hnone].
  - destruct (translate_batch_run generator models0 cur w) as [h' Hrun].
    { intros ->. cbn in Hsome. lia. }
    exists h'. erewrite bind_run by exact Hrun.
    cbn [map concat]. by rewrite !app_nil_r.
  - exists (heap w). cbn [map concat]. by rewrite !app_nil_r, world_eta.
Qed.

Lemma write_lines_run (tgt : list string) (w : world) :
  for_loop (M:=M) (fun _ line => emit (EvWrite (line ++ nl))) tgt tt w
  = (World (heap w) (trace w ++ map (fun line => EvWrite (line ++ nl)) tgt),
     Ok tt).
Proof.
  revert w. induction tgt as [|line tgt IH]; intros w.
  - cbn. by rewrite app_nil_r, world_eta.
  - cbn [for_loop map]. erewrite bind_run by apply emit_run.
    rewrite IH. cbn [heap trace]. by rewrite <- app_assoc.
Qed.

Variable EnsembleBeamSearchSequenceGenerator :
  GeneratorConfig -> result (tensor -> mask -> tensor).

(** A run of [main] with a configuration the constructor accepts. *)
Lemma main_run (src_f : list string) (w : world) :
  EnsembleBeamSearchSequenceGenerator (main_config args models0) = Ok generator ->
  ∃ h',
    main strip EnsembleBeamSearchSequenceGenerator args models0 src_f w
    = (World h' (trace w ++ main_events strip generator args models0 src_f),
       Ok tt).
Proof.
  intros Hctor. unfold main. fold (main_config args models0).
  erewrite bind_run by (unfold lift; rewrite Hctor; reflexivity).
  erewrite bind_run by apply emit_run.
  destruct (loop_run src_f [] [] 0%nat
              (World (heap w) (trace w ++ [EvLogInfo ("Translating: " ++ args.srctext args)])))
    as [h1 Hloop].
  erewrite bind_run by exact Hloop.
  match goal with
  | |- context [last_batch_step _ _ ?v ≫= _] =>
      match v with
      | Vars ?c ?t ?n =>
          destruct (last_batch_step_run c t n
                      (World h1 (trace w ++ [EvLogInfo ("Translating: " ++ args.srctext args)]
                                 ++ concat (map (full_batch_events generator models0)
                                                (full_batches strip batch_size [] src_f)))))
            as [h2 Hlast]
      end
  end.
  cbn [heap trace] in *. rewrite <- app_assoc.
  erewrite bind_run by exact Hlast.
  rewrite write_lines_run. cbn [heap trace tgt_text app].
  exists h2. unfold main_events, batches, last_batch. fold batch_size.
  rewrite (map_app (batch_translations generator models0)), concat_app.
  rewrite <- !app_assoc. reflexivity.
Qed.

(** A run of [main] with a configuration the constructor rejects. *)
Lemma main_rejected (src_f : list string) (w : world) (e : exn) :
  EnsembleBeamSearchSequenceGenerator (main_config args models0) = Raise e ->
  main strip EnsembleBeamSearchSequenceGenerator args models0 src_f w
  = (w, Raise e).
Proof.
  intros Hctor. unfold main. fold (main_config args models0).
  erewrite bind_raise by (unfold lift; rewrite Hctor; reflexivity).
  reflexivity.
Qed.

End MainRun.

(** ** Batches of a file *)

Section BatchFacts.

Variable strip : string -> string.
Variable batch_size : Z.

Lemma full_batches_leftover (cur src_f : list string) :
  concat (full_batches strip batch_size cur src_f)
    ++ leftover strip batch_size cur src_f
  = cur ++ map strip src_f.
Proof.
  revert cur. induction src_f as [|line src_f IH]; intros cur.
  - cbn. by rewrite app_nil_r.
  - cbn [full_batches leftover map].
    destruct (decide (Z.of_nat (length (cur ++ [strip line])) = batch_size)).
    + cbn [concat]. rewrite <- !app_assoc. by rewrite IH.
    + rewrite IH. by rewrite <- app_assoc.
Qed.

(** The batches are the stripped lines of the file, cut in order. *)
Lemma concat_batches (src_f : list string) :
  concat (batches strip batch_size src_f) = map strip src_f.
Proof.
  unfold batches, last_batch. rewrite concat_app.
  transitivity ([] ++ map strip src_f); [|done].
  rewrite <- full_batches_leftover. f_equal. destruct (decide _) as [|Hnone]; cbn [concat].
  - by rewrite app_nil_r.
  - destruct (leftover strip batch_size [] src_f); [done|]. cbn in Hnone. lia.
Qed.

Lemma full_batches_full (cur src_f : list string) :
  Forall (fun batch => batch ≠ [] ∧ Z.of_nat (length batch) = batch_size)
         (full_batches strip batch_size cur src_f).
Proof.
  revert cur. induction src_f as [|line src_f IH]; intros cur; [constructor|].
  cbn [full_batches].
  destruct (decide (Z.of_nat (length (cur ++ [strip line])) = batch_size)).
  - constructor; [|apply IH]. split; [by destruct cur | done].
  - apply IH.
Qed.

(** The generator is never called on an empty batch. *)
Lemma batches_nonempty (src_f : list string) :
  Forall (fun batch => batch ≠ []) (batches strip batch_size src_f).
Proof.
  unfold batches, last_batch. apply Forall_app. split.
  - eapply Forall_impl; [apply full_batches_full|]. by intros batch [? _].
  - destruct (decide _) as [Hsome|]; [|constructor].
    constructor; [|constructor]. intros Heq. rewrite Heq in Hsome.
    cbn in Hsome. lia.
Qed.

End BatchFacts.

(** ** What a run writes, prints and generates *)

Lemma written_app (evs evs' : list event) :
  written (evs ++ evs') = written evs ++ written evs'.
Proof.
  induction evs as [|e evs IH]; [done|]. destruct e; cbn; by rewrite ?IH.
Qed.

Lemma written_writes {A} (f : A -> string) (l : list A) :
  written (map (fun x => EvWrite (f x)) l) = map f l.
Proof. induction l as [|x l IH]; [done|]. cbn. by rewrite IH. Qed.

Lemma written_postprocess (model : Model) (rows : tensor) :
  written (postprocess_events model rows) = [].
Proof.
  unfold postprocess_events. rewrite written_app.
  assert (written (map EvIdsToText rows) = []) as ->
    by (induction rows as [|r rows IH]; [done | exact IH]).
  destruct (target_processor model); [|done].
  generalize (map (ids_to_text (decoder_tokenizer model)) rows).
  induction l as [|s l IH]; [done | exact IH].
Qed.

Lemma written_batch (generator : tensor -> mask -> tensor) (models0 : Model)
    (batch : list string) :
  written (batch_events generator models0 batch) = [].
Proof.
  unfold batch_events. destruct (input_preprocess batch models0) as [[src m]|e];
    [|done].
  cbn [written]. apply written_postprocess.
Qed.

Lemma written_full_batch (generator : tensor -> mask -> tensor) (models0 : Model)
    (batch : list string) :
  written (full_batch_events generator models0 batch) = [].
Proof.
  unfold full_batch_events. rewrite written_app, written_batch.
  by destruct (decide _).
Qed.

Lemma written_concat {A} (f : A -> list event) (l : list A) :
  (forall x, written (f x) = []) -> written (concat (map f l)) = [].
Proof.
  intros Hf. induction l as [|x l IH]; [done|].
  cbn [map concat]. by rewrite written_app, Hf, IH.
Qed.

(** The output file of a run: the translations of the batches, in order,
    each followed by a newline. *)
Lemma written_main (strip : string -> string)
    (generator : tensor -> mask -> tensor) (args : args.t) (models0 : Model)
    (src_f : list string) :
  written (main_events strip generator args models0 src_f)
  = map (fun line => (line ++ nl)%string)
        (concat (map (batch_translations generator models0)
                     (batches strip (args.batch_size args) src_f))).
Proof.
  unfold main_events. cbn [written]. rewrite !written_app.
  rewrite written_concat by apply written_full_batch.
  rewrite written_concat by apply written_batch.
  cbn [app]. apply written_writes.
Qed.

(** ** One output line per input line *)

Lemma length_translations_of (model : Model) (rows : tensor) :
  length (translations_of model rows) = length rows.
Proof.
  unfold translations_of. destruct (target_processor model);
    by rewrite ?length_map.
Qed.

Lemma length_batch_translations (generator : tensor -> mask -> tensor)
    (models0 : Model) (batch : list string) :
  (forall src_ids src_mask, length (generator src_ids src_mask) = length src_ids) ->
  batch ≠ [] ->
  length (batch_translations generator models0 batch) = length batch.
Proof.
  intros Hgen Hne. unfold batch_translations, batch_rows.
  rewrite length_translations_of.
  rewrite (input_preprocess_eq models0 batch Hne). cbv zeta.
  unfold clamp_tensor. by rewrite length_map, Hgen, length_map.
Qed.

Lemma length_concat_map {A B} (T : list A -> list B) (Bs : list (list A)) :
  Forall (fun b => length (T b) = length b) Bs ->
  length (concat (map T Bs)) = length (concat Bs).
Proof.
  induction 1 as [|b Bs Hb _ IH]; [done|].
  cbn [map concat]. by rewrite !length_app, Hb, IH.
Qed.

(** Outputs of batches line up with the inputs of the batches: the item
    at position [i] of the concatenated batches sits at some position [k]
    of some batch [j], and position [i] of the concatenated outputs is
    position [k] of the output of that batch. *)
Lemma lookup_concat_aligned {A B} (T : list A -> list B) (Bs : list (list A)) :
  Forall (fun b => length (T b) = length b) Bs ->
  ∀ i a, concat Bs !! i = Some a ->
    ∃ j k b t,
      Bs !! j = Some b
      ∧ i = (length (concat (take j Bs)) + k)%nat
      ∧ b !! k = Some a
      ∧ T b !! k = Some t
      ∧ concat (map T Bs) !! i = Some t.
Proof.
  induction 1 as [|b Bs Hb _ IH]; intros i a Hi; [done|].
  cbn [concat] in Hi. destruct (decide (i < length b)%nat) as [Hlt|Hge].
  - rewrite lookup_app_l in Hi by done.
    destruct (lookup_lt_is_Some_2 (T b) i) as [t Ht]; [by rewrite Hb|].
    exists 0%nat, i, b, t. repeat split; try done.
    cbn [map concat]. rewrite lookup_app_l by (by rewrite Hb). done.
  - rewrite lookup_app_r in Hi by lia.
    destruct (IH _ _ Hi) as (j & k & b' & t & Hj & Hoff & Hk & Ht & Hout).
    exists (S j), k, b', t. split; [done|]. split.
    { cbn [take concat]. rewrite length_app. lia. }
    split; [done|]. split; [done|].
    cbn [map concat]. rewrite lookup_app_r by (rewrite Hb; lia).
    by rewrite Hb.
Qed.

(** ** The lines of the output file *)

Lemma split_line (t rest : string) :
  has_newline t = false ->
  split "010" (t +:+ String "010" rest) = t :: split "010" rest.
Proof.
  induction t as [|c t IH]; intros Ht.
  - by rewrite str_app_nil_l.
  - cbn [has_newline] in Ht. apply orb_false_iff in Ht as [Hc Ht].
    rewrite str_app_cons. cbn [split]. by rewrite Hc, IH.
Qed.

(** A text made of lines without a line break inside, each followed by a
    line feed, splits at the line feeds into these lines and a last, empty
    piece. *)
Lemma split_lines (out : list string) :
  Forall (fun t => has_newline t = false) out ->
  split "010" (foldr String.append EmptyString (map (fun t => t +:+ nl) out))
  = out ++ [""].
Proof.
  induction 1 as [|t out Ht _ IH]; [done|].
  cbn [map foldr app]. unfold nl at 1.
  rewrite str_app_assoc, str_app_cons, str_app_nil_l.
  by rewrite split_line, IH.
Qed.

(** C4 (as stated) fails, in two ways.  With a generator that loses a row
    of every batch the run ends normally and the output file has one line
    for three input lines.  With a generator that keeps the rows but whose
    output reads as a line feed, the file has two lines for one input
    line. *)
Lemma main_output_lines_differ_from_input :
  let lossy := main Examples.strip_clean
                    (EnsembleBeamSearchSequenceGenerator_init Examples.lossy_search)
                    Examples.args_batch2 Examples.char_model ["ab"; "cd"; "e"]
                    Examples.empty_world in
  let broken := main Examples.strip_clean
                     (EnsembleBeamSearchSequenceGenerator_init Examples.newline_search)
                     Examples.args_batch2 Examples.char_model ["ab"]
                     Examples.empty_world in
  (snd lossy = Ok tt
   ∧ split "010" (output_text (trace (fst lossy))) = ["?cd?"; ""])
  ∧ (snd broken = Ok tt
     ∧ split "010" (output_text (trace (fst broken))) = [""; ""; ""]).
Proof. vm_compute. repeat split; reflexivity. Qed.

(** C4 (amended) — Once the generator is constructed, if it returns one
    output row for each source row and no translation of a batch holds a
    line break, a run of the script on any input file ends normally and
    its output file is made of exactly one line per input line, each ended
    by a line feed: cut at the line feeds, the text written is the list
    [out] of lines followed by one empty piece.  The lines are in the order
    of the input: the batches cut the stripped input lines in order, and
    when input line [i] is the sentence at position [k] of batch [j] (so
    that [i] is [k] plus the number of sentences of the batches before
    [j]), line [i] of the output is the translation at position [k] of
    that batch. *)
Theorem main_one_line_per_input (strip : string -> string)
    (EnsembleBeamSearchSequenceGenerator :
       GeneratorConfig -> result (tensor -> mask -> tensor))
    (generator : tensor -> mask -> tensor)
    (args : args.t) (models0 : Model) (src_f : list string) (w : world) :
  EnsembleBeamSearchSequenceGenerator (main_config args models0) = Ok generator ->
  (forall src_ids src_mask, length (generator src_ids src_mask) = length src_ids) ->
  Forall (fun batch =>
            Forall (fun translation => has_newline translation = false)
                   (batch_translations generator models0 batch))
         (batches strip (args.batch_size args) src_f) ->
  ∃ w' evs out,
    main strip EnsembleBeamSearchSequenceGenerator args models0 src_f w = (w', Ok tt)
    ∧ trace w' = trace w ++ evs
    ∧ split "010" (output_text evs) = out ++ [""]
    ∧ length out = length src_f
    ∧ concat (batches strip (args.batch_size args) src_f) = map strip src_f
    ∧ ∀ i line, src_f !! i = Some line ->
        ∃ j k batch translation,
          batches strip (args.batch_size args) src_f !! j = Some batch
          ∧ i = (length (concat (take j (batches strip (args.batch_size args) src_f)))
                 + k)%nat
          ∧ batch !! k = Some (strip line)
          ∧ batch_translations generator models0 batch !! k = Some translation
          ∧ out !! i = Some translation.
Proof.
  intros Hctor Hgen Hclean.
  destruct (main_run strip args models0 generator
              EnsembleBeamSearchSequenceGenerator src_f w Hctor) as [h' Hrun].
  set (Bs := batches strip (args.batch_size args) src_f) in *.
  assert (Forall (fun b => length (batch_translations generator models0 b) = length b) Bs)
    as Hrows.
  { eapply Forall_impl; [apply batches_nonempty|].
    intros batch Hne. by apply length_batch_translations. }
  exists (World h' (trace w ++ main_events strip generator args models0 src_f)),
         (main_events strip generator args models0 src_f),
         (concat (map (batch_translations generator models0) Bs)).
  split; [exact Hrun|]. split; [reflexivity|]. split.
  { unfold output_text. rewrite written_main. apply split_lines.
    apply Forall_concat, Forall_fmap. exact Hclean. }
  split.
  { rewrite (length_concat_map _ _ Hrows). unfold Bs.
    by rewrite concat_batches, length_map. }
  split; [apply concat_batches|].
  intros i line Hline.
  assert (concat Bs !! i = Some (strip line)) as Hi.
  { unfold Bs. rewrite concat_batches, list_lookup_fmap. by rewrite Hline. }
  destruct (lookup_concat_aligned _ _ Hrows _ _ Hi)
    as (j & k & batch & translation & ? & ? & ? & ? & ?).
  by exists j, k, batch, translation.
Qed.

Lemma main_one_line_per_input_witness :
  let generator :=
    Examples.echo_search (main_config Examples.args_batch2 Examples.char_model) in
  EnsembleBeamSearchSequenceGenerator_init Examples.echo_search
    (main_config Examples.args_batch2 Examples.char_model) = Ok generator
  ∧ (forall (src_ids : tensor) (src_mask : mask),
       length (generator src_ids src_mask) = length src_ids)
  ∧ Forall (fun batch =>
              Forall (fun translation => has_newline translation = false)
                     (batch_translations generator Examples.char_model batch))
           (batches Examples.strip_clean 2 ["ab"; "c"; "defg"])
  ∧ ∃ w' evs out,
      main Examples.strip_clean
           (EnsembleBeamSearchSequenceGenerator_init Examples.echo_search)
           Examples.args_batch2 Examples.char_model ["ab"; "c"; "defg"]
           Examples.empty_world = (w', Ok tt)
      ∧ trace w' = trace Examples.empty_world ++ evs
      ∧ split "010" (output_text evs) = out ++ [""]
      ∧ length out = 3%nat
      ∧ concat (batches Examples.strip_clean 2 ["ab"; "c"; "defg"])
        = map Examples.strip_clean ["ab"; "c"; "defg"]
      ∧ ∀ i line, ["ab"; "c"; "defg"] !! i = Some line ->
          ∃ j k batch translation,
            batches Examples.strip_clean 2 ["ab"; "c"; "defg"] !! j = Some batch
            ∧ i = (length (concat (take j (batches Examples.strip_clean 2
                                             ["ab"; "c"; "defg"]))) + k)%nat
            ∧ batch !! k = Some (Examples.strip_clean line)
            ∧ batch_translations generator Examples.char_model batch !! k
              = Some translation
            ∧ out !! i = Some translation.
Proof.
  cbv zeta.
  assert (Forall (fun batch =>
                    Forall (fun translation => has_newline translation = false)
                      (batch_translations
                         (Examples.echo_search
                            (main_config Examples.args_batch2 Examples.char_model))
                         Examples.char_model batch))
                 (batches Examples.strip_clean 2 ["ab"; "c"; "defg"])) as Hclean.
  { vm_compute. repeat constructor. }
  split; [reflexivity|]. split; [reflexivity|]. split; [exact Hclean|].
  apply (main_one_line_per_input Examples.strip_clean
           (EnsembleBeamSearchSequenceGenerator_init Examples.echo_search)
           (Examples.echo_search (main_config Examples.args_batch2 Examples.char_model))
           Examples.args_batch2 Examples.char_model ["ab"; "c"; "defg"]
           Examples.empty_world); [reflexivity | reflexivity | exact Hclean].
Defined.

Example main_three_lines :
  main Examples.strip_clean
       (EnsembleBeamSearchSequenceGenerator_init Examples.echo_search)
       Examples.args_batch2 Examples.char_model ["ab"; "c"; "defg"]
       Examples.empty_world
  = (World {[ 0%nat := [[2; 101; 102; 3]; [2; 103; 3; 0]];
              1%nat := [[2; 104; 105; 106; 107; 3]] ]}
       [EvLogInfo "Translating: in.txt";
        EvGenerate [[2; 101; 102; 3]; [2; 103; 3; 0]]
                   [[true; true; true; true]; [true; true; true; false]];
        EvIdsToText [2; 101; 102; 3]; EvIdsToText [2; 103; 3; 0];
        EvGenerate [[2; 104; 105; 106; 107; 3]] [[true; true; true; true; true; true]];
        EvIdsToText [2; 104; 105; 106; 107; 3];
        EvWrite ("?ab?" ++ nl); EvWrite ("?c??" ++ nl); EvWrite ("?defg?" ++ nl)],
     Ok tt).
Proof. vm_compute. reflexivity. Qed.

(** ** The length check *)

Lemma concat_map_split {A B} (f : A -> list B) (l : list A) (x : A) :
  x ∈ l -> ∃ pre post, concat (map f l) = pre ++ f x ++ post.
Proof.
  intros (l1 & l2 & ->)%list_elem_of_split.
  exists (concat (map f l1)), (concat (map f l2)).
  by rewrite map_app, concat_app.
Qed.

(** C5 (as stated) fails: a run in which the generator loses a row of
    every batch ends normally.  The full batch is reported on standard
    output and its single translation is written to the output file all the
    same; the last, partial batch comes back empty and nothing is said. *)
Lemma length_mismatch_is_not_fatal :
  let run := main Examples.strip_clean
                  (EnsembleBeamSearchSequenceGenerator_init Examples.lossy_search)
                  Examples.args_batch2 Examples.char_model ["ab"; "cd"; "e"]
                  Examples.empty_world in
  snd run = Ok tt
  ∧ printed_values (trace (fst run))
    = [PInt 1; PInt 2; PList ["?cd?"]; PList ["ab"; "cd"]]
  ∧ written (trace (fst run)) = [("?cd?" ++ nl)%string].
Proof. vm_compute. repeat split; reflexivity. Qed.

(** C5 (amended) — Whenever the number of translations produced for a
    batch translated inside the loop over the input differs from the
    number of source sentences of that batch, the script prints both
    numbers, the translations and the source sentences; it does not stop:
    the run ends normally and the translations of the batch are part of
    the output written. *)
Theorem length_mismatch_is_printed (strip : string -> string)
    (EnsembleBeamSearchSequenceGenerator :
       GeneratorConfig -> result (tensor -> mask -> tensor))
    (generator : tensor -> mask -> tensor)
    (args : args.t) (models0 : Model) (src_f : list string) (w : world)
    (batch : list string) :
  EnsembleBeamSearchSequenceGenerator (main_config args models0) = Ok generator ->
  batch ∈ full_batches strip (args.batch_size args) [] src_f ->
  length (batch_translations generator models0 batch) ≠ length batch ->
  ∃ w' pre post out1 out2,
    main strip EnsembleBeamSearchSequenceGenerator args models0 src_f w = (w', Ok tt)
    ∧ trace w'
      = trace w ++ pre
        ++ mismatch_report (batch_translations generator models0 batch) batch
        ++ post
    ∧ written (pre ++ mismatch_report (batch_translations generator models0 batch) batch
               ++ post)
      = map (fun translation => (translation ++ nl)%string)
            (out1 ++ batch_translations generator models0 batch ++ out2).
Proof.
  intros Hctor Hin Hmis.
  destruct (main_run strip args models0 generator
              EnsembleBeamSearchSequenceGenerator src_f w Hctor) as [h' Hrun].
  destruct (concat_map_split (full_batch_events generator models0) _ _ Hin)
    as (pre & post & Hevents).
  assert (batch ∈ batches strip (args.batch_size args) src_f) as Hin'
    by (unfold batches; apply elem_of_app; by left).
  destruct (concat_map_split (batch_translations generator models0) _ _ Hin')
    as (out1 & out2 & Hout).
  assert (main_events strip generator args models0 src_f
          = (EvLogInfo ("Translating: " ++ args.srctext args) :: pre
             ++ batch_events generator models0 batch)
            ++ mismatch_report (batch_translations generator models0 batch) batch
            ++ (post
                ++ concat (map (batch_events generator models0)
                               (last_batch strip (args.batch_size args) src_f))
                ++ map (fun line => EvWrite (line ++ nl))
                       (concat (map (batch_translations generator models0)
                                    (batches strip (args.batch_size args) src_f)))))
    as Hsplit.
  { unfold main_events. rewrite Hevents. unfold full_batch_events.
    rewrite decide_True by done. cbn [app]. by rewrite <- !app_assoc. }
  eexists _, _, _, out1, out2.
  split; [exact Hrun|]. cbn [trace].
  split; [by rewrite Hsplit|].
  rewrite <- Hsplit, <- Hout. apply written_main.
Qed.

Lemma length_mismatch_is_printed_witness :
  let generator :=
    Examples.lossy_search (main_config Examples.args_batch2 Examples.char_model) in
  EnsembleBeamSearchSequenceGenerator_init Examples.lossy_search
    (main_config Examples.args_batch2 Examples.char_model) = Ok generator
  ∧ ["ab"; "cd"] ∈ full_batches Examples.strip_clean 2 [] ["ab"; "cd"; "e"]
  ∧ length (batch_translations generator Examples.char_model ["ab"; "cd"]) ≠ 2%nat
  ∧ ∃ w' pre post out1 out2,
      main Examples.strip_clean
           (EnsembleBeamSearchSequenceGenerator_init Examples.lossy_search)
           Examples.args_batch2 Examples.char_model ["ab"; "cd"; "e"]
           Examples.empty_world = (w', Ok tt)
      ∧ trace w'
        = trace Examples.empty_world ++ pre
          ++ mismatch_report
               (batch_translations generator Examples.char_model ["ab"; "cd"])
               ["ab"; "cd"]
          ++ post
      ∧ written (pre ++ mismatch_report
                          (batch_translations generator Examples.char_model ["ab"; "cd"])
                          ["ab"; "cd"]
                 ++ post)
        = map (fun translation => (translation ++ nl)%string)
              (out1 ++ batch_translations generator Examples.char_model ["ab"; "cd"]
               ++ out2).
Proof.
  cbv zeta.
  assert (["ab"; "cd"] ∈ full_batches Examples.strip_clean 2 [] ["ab"; "cd"; "e"])
    as Hin by (vm_compute; left).
  assert (length (batch_translations
                    (Examples.lossy_search
                       (main_config Examples.args_batch2 Examples.char_model))
                    Examples.char_model ["ab"; "cd"]) ≠ 2%nat)
    as Hmis by (vm_compute; discriminate).
  split; [reflexivity|]. split; [exact Hin|]. split; [exact Hmis|].
  apply (length_mismatch_is_printed Examples.strip_clean
           (EnsembleBeamSearchSequenceGenerator_init Examples.lossy_search)
           (Examples.lossy_search (main_config Examples.args_batch2 Examples.char_model))
           Examples.args_batch2 Examples.char_model ["ab"; "cd"; "e"]
           Examples.empty_world ["ab"; "cd"]);
    [reflexivity | exact Hin | exact Hmis].
Defined.

(** ** Configuration errors *)

(** C8 — A configuration with a non-positive beam size or a non-positive
    maximum length is rejected by the generator's constructor, which the
    script calls before it reads the input: with a non-positive beam size
    the run raises with the world as it found it (no sentence prepared or
    decoded, nothing written). *)
Theorem configuration_errors_rejected_before_decoding
    (strip : string -> string)
    (beam_search : GeneratorConfig -> tensor -> mask -> tensor)
    (args : args.t) (models0 : Model) (src_f : list string) (w : world) :
  args.beam_size args <= 0 ->
  (∀ cfg, beam_size cfg <= 0 ∨ max_sequence_length cfg <= 0 ->
          EnsembleBeamSearchSequenceGenerator_init beam_search cfg = Raise ValueError)
  ∧ main strip (EnsembleBeamSearchSequenceGenerator_init beam_search)
         args models0 src_f w = (w, Raise ValueError).
Proof.
  intros Hbeam.
  assert (∀ cfg, beam_size cfg <= 0 ∨ max_sequence_length cfg <= 0 ->
            EnsembleBeamSearchSequenceGenerator_init beam_search cfg = Raise ValueError)
    as Hreject.
  { intros cfg Hbad. unfold EnsembleBeamSearchSequenceGenerator_init.
    rewrite decide_False; [done | lia]. }
  split; [exact Hreject|].
  apply main_rejected, Hreject. left. exact Hbeam.
Qed.

Lemma configuration_errors_rejected_before_decoding_witness :
  args.beam_size Examples.args_beam0 <= 0
  ∧ (∀ cfg, beam_size cfg <= 0 ∨ max_sequence_length cfg <= 0 ->
            EnsembleBeamSearchSequenceGenerator_init Examples.echo_search cfg
            = Raise ValueError)
  ∧ main Examples.strip_clean
         (EnsembleBeamSearchSequenceGenerator_init Examples.echo_search)
         Examples.args_beam0 Examples.char_model ["ab"; "c"; "defg"]
         Examples.empty_world
    = (Examples.empty_world, Raise ValueError).
Proof.
  split; [discriminate|].
  apply (configuration_errors_rejected_before_decoding Examples.strip_clean
           Examples.echo_search Examples.args_beam0 Examples.char_model
           ["ab"; "c"; "defg"] Examples.empty_world).
  discriminate.
Defined.

(** ** Further properties of the script *)

Lemma Forall2_map_diag {A B} (R : A -> B -> Prop) (f : A -> B) (l : list A) :
  (∀ x, R x (f x)) -> Forall2 R l (map f l).
Proof. intros HR. induction l as [|x l IH]; constructor; [apply HR | exact IH]. Qed.

Lemma clamp_idempotent (tokenizer : Tokenizer) (x : Z) :
  clamp tokenizer (clamp tokenizer x) = clamp tokenizer x.
Proof.
  unfold clamp. destruct (x >=? vocab_size tokenizer) eqn:Hx; [|by rewrite Hx].
  by destruct (unk_id tokenizer >=? vocab_size tokenizer).
Qed.

Lemma clamp_tensor_idempotent (tokenizer : Tokenizer) (t : tensor) :
  clamp_tensor tokenizer (clamp_tensor tokenizer t) = clamp_tensor tokenizer t.
Proof.
  unfold clamp_tensor. rewrite map_map. apply map_ext. intros row.
  rewrite map_map. apply map_ext. intros x. apply clamp_idempotent.
Qed.

Lemma clamp_in_vocabulary (tokenizer : Tokenizer) (x : Z) :
  unk_id tokenizer < vocab_size tokenizer ->
  clamp tokenizer x < vocab_size tokenizer.
Proof.
  intros Hunk. unfold clamp. rewrite Z.geb_leb.
  destruct (Z.leb_spec (vocab_size tokenizer) x); lia.
Qed.

(** X13 — When the unknown-token id is itself below the vocabulary size,
    every id of the tensor is below the vocabulary size after
    [filter_predicted_ids], and the tensor keeps its rows and their
    lengths; the function returns the object it was given. *)
Theorem filter_predicted_ids_in_vocabulary (tokenizer : Tokenizer) (ids : loc)
    (t : tensor) (w : world) :
  heap w !! ids = Some t ->
  unk_id tokenizer < vocab_size tokenizer ->
  ∃ w' t',
    filter_predicted_ids tokenizer ids w = (w', Ok ids)
    ∧ heap w' !! ids = Some t'
    ∧ Forall (Forall (fun x => x < vocab_size tokenizer)) t'
    ∧ Forall2 (fun row row' => length row = length row') t t'.
Proof.
  intros Hids Hunk. eexists _, _.
  split; [by apply filter_predicted_ids_run|]. cbn [heap].
  split; [apply lookup_insert_eq|]. unfold clamp_tensor. split.
  - apply Forall_forall. intros row' Hrow'.
    apply list_elem_of_In, in_map_iff in Hrow' as (row & <- & _).
    apply Forall_forall. intros x' Hx'.
    apply list_elem_of_In, in_map_iff in Hx' as (x & <- & _).
    by apply clamp_in_vocabulary.
  - apply Forall2_map_diag. intros row. by rewrite length_map.
Qed.

Lemma filter_predicted_ids_in_vocabulary_witness :
  heap Examples.world_with_oov !! 0%nat = Some [[2; 265; 101; 3]]
  ∧ unk_id Examples.char_tokenizer < vocab_size Examples.char_tokenizer
  ∧ ∃ w' t',
      filter_predicted_ids Examples.char_tokenizer 0%nat Examples.world_with_oov
      = (w', Ok 0%nat)
      ∧ heap w' !! 0%nat = Some t'
      ∧ Forall (Forall (fun x => x < vocab_size Examples.char_tokenizer)) t'
      ∧ Forall2 (fun row row' => length row = length row') [[2; 265; 101; 3]] t'.
Proof.
  split; [reflexivity|]. split; [reflexivity|].
  apply (filter_predicted_ids_in_vocabulary Examples.char_tokenizer 0%nat
           [[2; 265; 101; 3]] Examples.world_with_oov); reflexivity.
Defined.

(** X14 — [filter_predicted_ids] is idempotent: a second call on the same
    tensor object leaves the world exactly as the first call left it. *)
Theorem filter_predicted_ids_idempotent (tokenizer : Tokenizer) (ids : loc)
    (t : tensor) (w : world) :
  heap w !! ids = Some t ->
  ∃ w',
    filter_predicted_ids tokenizer ids w = (w', Ok ids)
    ∧ filter_predicted_ids tokenizer ids w' = (w', Ok ids).
Proof.
  intros Hids. eexists. split; [by apply filter_predicted_ids_run|].
  rewrite (filter_predicted_ids_run tokenizer ids (clamp_tensor tokenizer t))
    by (cbn [heap]; apply lookup_insert_eq).
  cbn [heap trace]. by rewrite clamp_tensor_idempotent, insert_insert_eq.
Qed.

Lemma filter_predicted_ids_idempotent_witness :
  heap Examples.world_with_oov !! 0%nat = Some [[2; 265; 101; 3]]
  ∧ ∃ w',
      filter_predicted_ids Examples.char_tokenizer 0%nat Examples.world_with_oov
      = (w', Ok 0%nat)
      ∧ filter_predicted_ids Examples.char_tokenizer 0%nat w' = (w', Ok 0%nat).
Proof.
  split; [reflexivity|].
  apply (filter_predicted_ids_idempotent Examples.char_tokenizer 0%nat
           [[2; 265; 101; 3]] Examples.world_with_oov).
  reflexivity.
Defined.

Lemma length_pad_row (m : nat) (pad : Z) (txt : list Z) :
  (length txt ≤ m)%nat -> length (pad_row m pad txt) = m.
Proof. intros H. unfold pad_row. rewrite length_app, length_replicate. lia. Qed.

(** X15 — Whatever input preparation returns is rectangular: all the rows
    of the id matrix and of the mask have one length, which is at least 2,
    there is a mask row for every matrix row, and a mask cell is set exactly
    when the id in the same cell of the matrix differs from the pad id. *)
Theorem input_preprocess_rectangular (model : Model) (text : list string)
    (src : tensor) (src_mask : mask) :
  input_preprocess text model = Ok (src, src_mask) ->
  ∃ max_len,
    (2 ≤ max_len)%nat
    ∧ Forall (fun row => length row = max_len) src
    ∧ Forall (fun row => length row = max_len) src_mask
    ∧ Forall2 (Forall2 (fun x b =>
                 b = negb (x =? pad_id (encoder_tokenizer model)))) src src_mask.
Proof.
  destruct (decide (text = [])) as [->|Hne]; [discriminate|].
  rewrite input_preprocess_eq by done. intros [= <- <-].
  exists (batch_max_len model text).
  assert (Forall (fun row => length row = batch_max_len model text)
            (map (fun txt => pad_row (batch_max_len model text)
                               (pad_id (encoder_tokenizer model))
                               (wrap_sentence model txt)) text)) as Hrows.
  { apply Forall_forall. intros row Hrow.
    apply list_elem_of_In, in_map_iff in Hrow as (txt & <- & Hin).
    apply length_pad_row, batch_max_len_bound. by apply list_elem_of_In. }
  split.
  { destruct (batch_max_len_attained model text Hne) as (txt & _ & ->).
    rewrite length_wrap_sentence. lia. }
  split; [exact Hrows|]. split.
  - apply Forall_forall. intros row Hrow.
    apply list_elem_of_In, in_map_iff in Hrow as (row' & <- & Hin).
    rewrite length_map. eapply Forall_forall in Hrows; [exact Hrows|].
    by apply list_elem_of_In.
  - apply Forall2_map_diag. intros row. by apply Forall2_map_diag.
Qed.

Lemma input_preprocess_rectangular_witness :
  input_preprocess ["ab"; "c"; "defg"] Examples.char_model
  = Ok ([[2; 101; 102; 3; 0; 0]; [2; 103; 3; 0; 0; 0]; [2; 104; 105; 106; 107; 3]],
        [[true; true; true; true; false; false];
         [true; true; true; false; false; false];
         [true; true; true; true; true; true]])
  ∧ ∃ max_len,
      (2 ≤ max_len)%nat
      ∧ Forall (fun row => length row = max_len)
          [[2; 101; 102; 3; 0; 0]; [2; 103; 3; 0; 0; 0]; [2; 104; 105; 106; 107; 3]]
      ∧ Forall (fun row => length row = max_len)
          [[true; true; true; true; false; false];
           [true; true; true; false; false; false];
           [true; true; true; true; true; true]]
      ∧ Forall2 (Forall2 (fun x b => b = negb (x =? 0)))
          [[2; 101; 102; 3; 0; 0]; [2; 103; 3; 0; 0; 0]; [2; 104; 105; 106; 107; 3]]
          [[true; true; true; true; false; false];
           [true; true; true; false; false; false];
           [true; true; true; true; true; true]].
Proof.
  split; [reflexivity|].
  apply (input_preprocess_rectangular Examples.char_model ["ab"; "c"; "defg"]).
  reflexivity.
Defined.

(** *** Batches and generator calls *)

Lemma generate_calls_app (evs evs' : list event) :
  generate_calls (evs ++ evs') = generate_calls evs ++ generate_calls evs'.
Proof.
  induction evs as [|e evs IH]; [done|]. destruct e; cbn; by rewrite ?IH.
Qed.

Lemma generate_calls_postprocess (model : Model) (rows : tensor) :
  generate_calls (postprocess_events model rows) = [].
Proof.
  unfold postprocess_events. rewrite generate_calls_app.
  assert (generate_calls (map EvIdsToText rows) = []) as ->
    by (induction rows as [|r rows IH]; [done | exact IH]).
  destruct (target_processor model); [|done].
  generalize (map (ids_to_text (decoder_tokenizer model)) rows).
  induction l as [|s l IH]; [done | exact IH].
Qed.

Lemma generate_calls_batch (generator : tensor -> mask -> tensor) (models0 : Model)
    (batch : list string) :
  batch ≠ [] ->
  ∃ call, input_preprocess batch models0 = Ok call
          ∧ length (fst call) = length batch
          ∧ generate_calls (batch_events generator models0 batch) = [call]
          ∧ generate_calls (full_batch_events generator models0 batch) = [call].
Proof.
  intros Hne. unfold full_batch_events, batch_events.
  rewrite (input_preprocess_eq models0 batch Hne). cbv zeta.
  eexists. split; [reflexivity|]. cbn [fst]. split; [by rewrite length_map|].
  rewrite generate_calls_app. cbn [generate_calls].
  rewrite generate_calls_postprocess. split; [done|].
  by destruct (decide _).
Qed.

Lemma generate_calls_batches (E : list string -> list event) (models0 : Model)
    (Bs : list (list string)) :
  (∀ b, b ≠ [] -> ∃ call, input_preprocess b models0 = Ok call
                          ∧ length (fst call) = length b
                          ∧ generate_calls (E b) = [call]) ->
  Forall (fun b => b ≠ []) Bs ->
  Forall2 (fun b call => input_preprocess b models0 = Ok call
                         ∧ length (fst call) = length b)
          Bs (generate_calls (concat (map E Bs))).
Proof.
  intros HE. induction 1 as [|b Bs Hb _ IH]; [constructor|].
  cbn [map concat]. rewrite generate_calls_app.
  destruct (HE b Hb) as (call & Hcall & Hlen & ->). by constructor.
Qed.

Lemma generate_calls_writes (l : list string) :
  generate_calls (map (fun line => EvWrite (line ++ nl)) l) = [].
Proof. induction l as [|x l IH]; [done | exact IH]. Qed.

(** The generator is called once per batch, in order, on the prepared
    batch. *)
Lemma generate_calls_main (strip : string -> string)
    (generator : tensor -> mask -> tensor) (args : args.t) (models0 : Model)
    (src_f : list string) :
  Forall2 (fun b call => input_preprocess b models0 = Ok call
                         ∧ length (fst call) = length b)
          (batches strip (args.batch_size args) src_f)
          (generate_calls (main_events strip generator args models0 src_f)).
Proof.
  unfold main_events, batches. cbn [generate_calls].
  rewrite !generate_calls_app, generate_calls_writes, app_nil_r.
  pose proof (batches_nonempty strip (args.batch_size args) src_f) as Hne.
  unfold batches in Hne. apply Forall_app in Hne as [Hfull Hlast].
  apply Forall2_app.
  - apply generate_calls_batches; [|done]. intros b Hb.
    destruct (generate_calls_batch generator models0 b Hb) as (c & ? & ? & ? & ?).
    eauto.
  - apply generate_calls_batches; [|done]. intros b Hb.
    destruct (generate_calls_batch generator models0 b Hb) as (c & ? & ? & ? & ?).
    eauto.
Qed.

Section BatchSizes.

Variable strip : string -> string.
Variable batch_size : Z.

Lemma leftover_short (cur src_f : list string) :
  0 < batch_size -> Z.of_nat (length cur) < batch_size ->
  Z.of_nat (length (leftover strip batch_size cur src_f)) < batch_size.
Proof.
  intros Hpos. revert cur. induction src_f as [|line src_f IH]; intros cur Hcur;
    [done|].
  cbn [leftover].
  destruct (decide (Z.of_nat (length (cur ++ [strip line])) = batch_size)) as [|Hne].
  - apply IH. cbn. lia.
  - apply IH. rewrite length_app in *. cbn [length] in *. lia.
Qed.

Lemma length_concat_full (cur src_f : list string) :
  Z.of_nat (length (concat (full_batches strip batch_size cur src_f)))
  = batch_size * Z.of_nat (length (full_batches strip batch_size cur src_f)).
Proof.
  pose proof (full_batches_full strip batch_size cur src_f) as Hfull.
  induction Hfull as [|b Bs [_ Hb] _ IH]; [cbn; lia|].
  cbn [concat length]. rewrite length_app. lia.
Qed.

(** With a non-positive batch size no batch is ever full: everything is
    left for the statement after the loop. *)
Lemma nonpositive_batch_size (cur src_f : list string) :
  batch_size <= 0 ->
  full_batches strip batch_size cur src_f = []
  ∧ leftover strip batch_size cur src_f = cur ++ map strip src_f.
Proof.
  intros Hbs. revert cur. induction src_f as [|line src_f IH]; intros cur.
  - by rewrite app_nil_r.
  - cbn [full_batches leftover map].
    destruct (decide (Z.of_nat (length (cur ++ [strip line])) = batch_size)) as [Heq|_].
    { rewrite length_app in Heq. cbn [length] in Heq. lia. }
    destruct (IH (cur ++ [strip line])) as [-> ->].
    split; [done | by rewrite <- app_assoc].
Qed.

End BatchSizes.

Lemma ceil_div (b k r : Z) :
  0 < b -> 0 <= r < b ->
  (b * k + r + b - 1) / b = k + (if decide (r = 0) then 0 else 1).
Proof.
  intros Hb Hr. destruct (decide (r = 0)) as [->|Hr0].
  - symmetry. apply (Z.div_unique _ _ _ (b - 1)); lia.
  - symmetry. apply (Z.div_unique _ _ _ (r - 1)); lia.
Qed.

Lemma rows_of_calls (models0 : Model) (Bs : list (list string))
    (calls : list (tensor * mask)) :
  Forall2 (fun b call => input_preprocess b models0 = Ok call
                         ∧ length (fst call) = length b) Bs calls ->
  map (fun call => length (fst call)) calls = map length Bs.
Proof.
  induction 1 as [|b call Bs calls [_ Hlen] _ IH]; [done|].
  cbn [map]. by rewrite Hlen, IH.
Qed.

Lemma sum_list_lengths {A} (Bs : list (list A)) :
  sum_list (map length Bs) = length (concat Bs).
Proof.
  induction Bs as [|b Bs IH]; [done|]. cbn. rewrite length_app. lia.
Qed.

(** The sizes of the batches of a file for a positive batch size. *)
Lemma batch_lengths (strip : string -> string) (batch_size : Z)
    (src_f : list string) :
  0 < batch_size ->
  let sizes := map length (batches strip batch_size src_f) in
  Z.of_nat (length sizes) = (Z.of_nat (length src_f) + batch_size - 1) / batch_size
  ∧ sum_list sizes = length src_f
  ∧ Forall (fun n => (1 ≤ n)%nat ∧ Z.of_nat n <= batch_size) sizes
  ∧ ∀ i n, sizes !! i = Some n -> (S i < length sizes)%nat -> Z.of_nat n = batch_size.
Proof.
  intros Hpos sizes.
  pose proof (full_batches_full strip batch_size [] src_f) as Hfull.
  pose proof (leftover_short strip batch_size [] src_f Hpos) as Hshort.
  specialize (Hshort ltac:(cbn; lia)).
  pose proof (full_batches_leftover strip batch_size [] src_f) as Hcat.
  cbn [app] in Hcat. apply (f_equal (@length string)) in Hcat.
  rewrite length_app in Hcat. rewrite (length_map strip) in Hcat.
  pose proof (length_concat_full strip batch_size [] src_f) as Hlen.
  assert (sum_list sizes = length src_f) as Hsum.
  { unfold sizes. rewrite sum_list_lengths, concat_batches. apply length_map. }
  unfold sizes, batches, last_batch in *.
  set (full := full_batches strip batch_size [] src_f) in *.
  set (rest := leftover strip batch_size [] src_f) in *.
  split.
  { rewrite length_map, length_app.
    replace (Z.of_nat (length src_f))
      with (batch_size * Z.of_nat (length full) + Z.of_nat (length rest)) by lia.
    rewrite ceil_div by lia.
    destruct (decide (0 < length rest)%nat); destruct (decide (Z.of_nat (length rest) = 0));
      cbn [length]; lia. }
  split; [exact Hsum|]. split.
  { rewrite map_app. apply Forall_app. split.
    - apply Forall_forall. intros n Hn.
      apply list_elem_of_In, in_map_iff in Hn as (b & <- & Hb).
      eapply Forall_forall in Hfull; [|by apply list_elem_of_In].
      destruct Hfull as [Hne Hb']. destruct b; [done|]. cbn [length] in *. lia.
    - destruct (decide (0 < length rest)%nat); [|constructor].
      constructor; [lia | constructor]. }
  intros i n Hi Hlast. rewrite map_app, length_app, !length_map in *.
  assert (i < length full)%nat as Hi'.
  { destruct (decide (0 < length rest)%nat); cbn [length] in Hlast; lia. }
  rewrite lookup_app_l in Hi by (by rewrite length_map).
  apply list_lookup_fmap_Some in Hi as (b & -> & Hb).
  by destruct (proj1 (Forall_lookup _ _) Hfull i b Hb).
Qed.

(** X16 — With a positive batch size, a run of the script calls the
    generator on ceil(n / batch_size) batches for a file of n lines; every
    batch has at least one and at most batch_size sentences, every batch
    but the last has exactly batch_size, and together they hold the n lines
    (an empty file gives no call at all). *)
Theorem main_batches_have_batch_size (strip : string -> string)
    (EnsembleBeamSearchSequenceGenerator :
       GeneratorConfig -> result (tensor -> mask -> tensor))
    (generator : tensor -> mask -> tensor)
    (args : args.t) (models0 : Model) (src_f : list string) (w : world) :
  EnsembleBeamSearchSequenceGenerator (main_config args models0) = Ok generator ->
  0 < args.batch_size args ->
  ∃ w' evs,
    main strip EnsembleBeamSearchSequenceGenerator args models0 src_f w = (w', Ok tt)
    ∧ trace w' = trace w ++ evs
    ∧ let rows := map (fun call => length (fst call)) (generate_calls evs) in
      Z.of_nat (length rows)
      = (Z.of_nat (length src_f) + args.batch_size args - 1) / args.batch_size args
      ∧ sum_list rows = length src_f
      ∧ Forall (fun n => (1 ≤ n)%nat ∧ Z.of_nat n <= args.batch_size args) rows
      ∧ ∀ i n, rows !! i = Some n -> (S i < length rows)%nat ->
               Z.of_nat n = args.batch_size args.
Proof.
  intros Hctor Hpos.
  destruct (main_run strip args models0 generator
              EnsembleBeamSearchSequenceGenerator src_f w Hctor) as [h' Hrun].
  eexists _, _. split; [exact Hrun|]. split; [reflexivity|].
  cbv zeta.
  rewrite (rows_of_calls models0 _ _
             (generate_calls_main strip generator args models0 src_f)).
  by apply batch_lengths.
Qed.

Lemma main_batches_have_batch_size_witness :
  EnsembleBeamSearchSequenceGenerator_init Examples.echo_search
    (main_config Examples.args_batch2 Examples.char_model)
  = Ok (Examples.echo_search (main_config Examples.args_batch2 Examples.char_model))
  ∧ 0 < args.batch_size Examples.args_batch2
  ∧ ∃ w' evs,
      main Examples.strip_clean
           (EnsembleBeamSearchSequenceGenerator_init Examples.echo_search)
           Examples.args_batch2 Examples.char_model ["ab"; "c"; "defg"]
           Examples.empty_world = (w', Ok tt)
      ∧ trace w' = trace Examples.empty_world ++ evs
      ∧ let rows := map (fun call => length (fst call)) (generate_calls evs) in
        Z.of_nat (length rows) = (Z.of_nat 3 + 2 - 1) / 2
        ∧ sum_list rows = 3%nat
        ∧ Forall (fun n => (1 ≤ n)%nat ∧ Z.of_nat n <= 2) rows
        ∧ ∀ i n, rows !! i = Some n -> (S i < length rows)%nat -> Z.of_nat n = 2.
Proof.
  split; [reflexivity|]. split; [reflexivity|].
  apply (main_batches_have_batch_size Examples.strip_clean
           (EnsembleBeamSearchSequenceGenerator_init Examples.echo_search)
           (Examples.echo_search (main_config Examples.args_batch2 Examples.char_model))
           Examples.args_batch2 Examples.char_model ["ab"; "c"; "defg"]
           Examples.empty_world); reflexivity.
Defined.

(** X17 — With a batch size of zero or less the loop never translates
    anything: the whole file is prepared and given to the generator as one
    single batch after the loop. *)
Theorem main_nonpositive_batch_size_is_one_batch (strip : string -> string)
    (EnsembleBeamSearchSequenceGenerator :
       GeneratorConfig -> result (tensor -> mask -> tensor))
    (generator : tensor -> mask -> tensor)
    (args : args.t) (models0 : Model) (src_f : list string) (w : world)
    (call : tensor * mask) :
  EnsembleBeamSearchSequenceGenerator (main_config args models0) = Ok generator ->
  args.batch_size args <= 0 ->
  input_preprocess (map strip src_f) models0 = Ok call ->
  ∃ w' evs,
    main strip EnsembleBeamSearchSequenceGenerator args models0 src_f w = (w', Ok tt)
    ∧ trace w' = trace w ++ evs
    ∧ generate_calls evs = [call]
    ∧ length (fst call) = length src_f.
Proof.
  intros Hctor Hbs Hcall.
  destruct (main_run strip args models0 generator
              EnsembleBeamSearchSequenceGenerator src_f w Hctor) as [h' Hrun].
  eexists _, _. split; [exact Hrun|]. split; [reflexivity|].
  pose proof (generate_calls_main strip generator args models0 src_f) as Hcalls.
  unfold batches, last_batch in Hcalls.
  destruct (nonpositive_batch_size strip (args.batch_size args) [] src_f Hbs)
    as [Hfull Hrest].
  rewrite Hfull, Hrest in Hcalls. cbn [app] in Hcalls.
  assert (map strip src_f ≠ []) as Hne by (intros Heq; by rewrite Heq in Hcall).
  rewrite decide_True in Hcalls
    by (destruct (map strip src_f); [done | cbn; lia]).
  inversion Hcalls as [|b c Bs cs [Hc Hlen] Hnil]; subst.
  inversion Hnil; subst.
  rewrite Hcall in Hc. injection Hc as <-.
  split; [done|]. by rewrite Hlen, length_map.
Qed.

Lemma main_nonpositive_batch_size_is_one_batch_witness :
  let call := ([[2; 101; 102; 3; 0; 0]; [2; 103; 3; 0; 0; 0];
                [2; 104; 105; 106; 107; 3]],
               [[true; true; true; true; false; false];
                [true; true; true; false; false; false];
                [true; true; true; true; true; true]]) in
  EnsembleBeamSearchSequenceGenerator_init Examples.echo_search
    (main_config ScriptExamples.args_batch0 Examples.char_model)
  = Ok (Examples.echo_search
          (main_config ScriptExamples.args_batch0 Examples.char_model))
  ∧ args.batch_size ScriptExamples.args_batch0 <= 0
  ∧ input_preprocess (map Examples.strip_clean ["ab"; "c"; "defg"]) Examples.char_model
    = Ok call
  ∧ ∃ w' evs,
      main Examples.strip_clean
           (EnsembleBeamSearchSequenceGenerator_init Examples.echo_search)
           ScriptExamples.args_batch0 Examples.char_model ["ab"; "c"; "defg"]
           Examples.empty_world
      = (w', Ok tt)
      ∧ trace w' = trace Examples.empty_world ++ evs
      ∧ generate_calls evs = [call]
      ∧ length (fst call) = 3%nat.
Proof.
  cbv zeta. split; [reflexivity|]. split; [discriminate|]. split; [reflexivity|].
  apply (main_nonpositive_batch_size_is_one_batch Examples.strip_clean
           (EnsembleBeamSearchSequenceGenerator_init Examples.echo_search)
           (Examples.echo_search
              (main_config ScriptExamples.args_batch0 Examples.char_model))
           ScriptExamples.args_batch0 Examples.char_model ["ab"; "c"; "defg"]
           Examples.empty_world); [reflexivity | discriminate | reflexivity].
Defined.

(** ** Strings and POSIX paths *)

Lemma str_length_app (a b : string) :
  String.length (a +:+ b) = (String.length a + String.length b)%nat.
Proof.
  induction a as [|x a IH]; [done|]. rewrite str_app_cons. cbn [String.length].
  by rewrite IH.
Qed.

Lemma str_app_inv_head (s a b : string) : s +:+ a = s +:+ b -> a = b.
Proof.
  induction s as [|c s IH]; [done|]. rewrite !str_app_cons.
  intros [= H]. by apply IH.
Qed.

Lemma str_app_inv_tail (s a b : string) : a +:+ s = b +:+ s -> a = b.
Proof.
  revert b. induction a as [|x a IH]; intros [|y b] H;
    rewrite ?str_app_cons, ?str_app_nil_l in H.
  - done.
  - apply (f_equal String.length) in H. cbn [String.length] in H.
    rewrite str_length_app in H. lia.
  - apply (f_equal String.length) in H. cbn [String.length] in H.
    rewrite str_length_app in H. lia.
  - injection H as -> H. f_equal. by apply IH.
Qed.

Lemma has_sep_app (a b : string) : has_sep (a +:+ b) = has_sep a || has_sep b.
Proof.
  induction a as [|x a IH]; [done|]. rewrite str_app_cons. cbn [has_sep].
  rewrite IH. by rewrite orb_assoc.
Qed.

Lemma rfind_sep_end_no_sep (s : string) :
  has_sep s = false <-> rfind_sep_end s = 0%nat.
Proof.
  induction s as [|c s IH]; [done|]. cbn.
  destruct (rfind_sep_end s) as [|i].
  - destruct (Ascii.eqb c "/"); cbn; [done|]. split; [done|]. intros _. by apply IH.
  - split; [|done]. intros [_ H]%orb_false_iff. apply IH in H. done.
Qed.

Lemma rfind_sep_end_app (h b : string) :
  has_sep b = false ->
  rfind_sep_end (h +:+ String "/" b) = S (String.length h).
Proof.
  intros Hb. induction h as [|c h IH].
  - rewrite str_app_nil_l. cbn [rfind_sep_end String.length].
    apply rfind_sep_end_no_sep in Hb. by rewrite Hb.
  - rewrite str_app_cons. cbn [rfind_sep_end String.length]. by rewrite IH.
Qed.

Lemma string_take_app (h t : string) : string_take (String.length h) (h +:+ t) = h.
Proof.
  induction h as [|c h IH]; [by destruct t|].
  rewrite str_app_cons. cbn [String.length string_take]. by rewrite IH.
Qed.

Lemma string_drop_app (h t : string) : string_drop (String.length h) (h +:+ t) = t.
Proof.
  induction h as [|c h IH]; [by destruct t|].
  rewrite str_app_cons. cbn [String.length string_drop]. exact IH.
Qed.

(** The file name of a path holds no slash. *)
Lemma basename_no_sep (p : string) : has_sep (basename p) = false.
Proof.
  unfold basename. induction p as [|c p IH]; [done|]. cbn.
  destruct (rfind_sep_end p) as [|i] eqn:Hp.
  - apply rfind_sep_end_no_sep in Hp.
    destruct (Ascii.eqb c "/") eqn:Hc; cbn; [by destruct p | by rewrite Hc].
  - exact IH.
Qed.

Lemma basename_app (h b : string) :
  has_sep b = false -> basename (h +:+ String "/" b) = b.
Proof.
  intros Hb. unfold basename. rewrite rfind_sep_end_app by done.
  change (h +:+ String "/" b) with (h +:+ ("/" +:+ b)).
  rewrite <- str_app_assoc.
  replace (S (String.length h)) with (String.length (h +:+ "/"))
    by (rewrite str_length_app; cbn [String.length]; lia).
  apply string_drop_app.
Qed.

Lemma rstrip_sep_cons (c : ascii) (s : string) :
  rstrip_sep (String c s)
  = match rstrip_sep s with
    | EmptyString => if Ascii.eqb c "/" then EmptyString else String c EmptyString
    | r => String c r
    end.
Proof. reflexivity. Qed.

Lemma rstrip_sep_clean (s : string) :
  s ≠ "" -> endswith_sep s = false -> rstrip_sep s = s.
Proof.
  induction s as [|c s IH]; [done|]. intros _ Hend.
  destruct s as [|c' s'].
  - cbn in *. by rewrite Hend.
  - rewrite rstrip_sep_cons, IH; done.
Qed.

Lemma rstrip_sep_slash (s : string) : rstrip_sep (s +:+ "/") = rstrip_sep s.
Proof.
  induction s as [|c s IH]; [done|].
  rewrite str_app_cons, !rstrip_sep_cons. by rewrite IH.
Qed.

Lemma rstrip_sep_repeat (n : nat) : rstrip_sep (string_repeat "/" n) = "".
Proof. induction n as [|n IH]; [done|]. simpl. by rewrite IH. Qed.

Lemma dirname_app (h b : string) :
  h ≠ "" -> endswith_sep h = false -> has_sep b = false ->
  dirname (h +:+ String "/" b) = h.
Proof.
  intros Hne Hend Hb. unfold dirname. rewrite rfind_sep_end_app by done.
  change (h +:+ String "/" b) with (h +:+ ("/" +:+ b)).
  rewrite <- str_app_assoc.
  replace (S (String.length h)) with (String.length (h +:+ "/"))
    by (rewrite str_length_app; cbn [String.length]; lia).
  rewrite string_take_app.
  rewrite decide_True.
  - by rewrite rstrip_sep_slash, rstrip_sep_clean.
  - split; [by destruct h|].
    intros Heq. apply (f_equal rstrip_sep) in Heq.
    rewrite rstrip_sep_slash, rstrip_sep_clean, rstrip_sep_repeat in Heq; done.
Qed.

Lemma endswith_sep_app (a b : string) :
  b ≠ "" -> endswith_sep (a +:+ b) = endswith_sep b.
Proof.
  intros Hb. induction a as [|c a IH]; [done|].
  rewrite str_app_cons. cbn [endswith_sep].
  destruct (a +:+ b) eqn:Hab; [|done].
  destruct a; [by rewrite str_app_nil_l in Hab | by rewrite str_app_cons in Hab].
Qed.

Lemma no_sep_endswith (s : string) : has_sep s = false -> endswith_sep s = false.
Proof.
  induction s as [|c s IH]; [done|]. cbn. intros [Hc Hs]%orb_false_iff.
  destruct s; [done | by apply IH].
Qed.

(** ** Formatted ranks *)

Lemma has_sep_repeat_zero (n : nat) : has_sep (string_repeat "0" n) = false.
Proof. induction n as [|n IH]; [done | exact IH]. Qed.

Lemma has_sep_uint (d : Decimal.uint) : has_sep (NilEmpty.string_of_uint d) = false.
Proof. induction d; cbn; done. Qed.

Lemma has_sep_uint0 (d : Decimal.uint) : has_sep (NilZero.string_of_uint d) = false.
Proof. destruct d; try done; apply (has_sep_uint (_ d)). Qed.

Lemma uint0_nonempty (d : Decimal.uint) : NilZero.string_of_uint d ≠ "".
Proof. by destruct d. Qed.

Lemma format_0d_no_sep (width : nat) (z : Z) : has_sep (format_0d width z) = false.
Proof.
  unfold format_0d, zfill. destruct (Z.to_int z); cbn [has_sep];
    rewrite ?has_sep_app, has_sep_repeat_zero, has_sep_uint0; done.
Qed.

Lemma format_0d_nonempty (width : nat) (z : Z) : format_0d width z ≠ "".
Proof.
  unfold format_0d, zfill. destruct (Z.to_int z) as [d|d]; [|done].
  intros H. apply (f_equal String.length) in H. rewrite str_length_app in H.
  pose proof (uint0_nonempty d). destruct (NilZero.string_of_uint d); [done|].
  cbn [String.length] in H. lia.
Qed.

Lemma uint_of_zeros (k : nat) (d : Decimal.uint) :
  NilEmpty.uint_of_string (string_repeat "0" k +:+ NilEmpty.string_of_uint d)
  = Some (Nat.iter k Decimal.D0 d).
Proof.
  induction k as [|k IH]; [apply NilEmpty.usu|].
  cbn [string_repeat Nat.iter]. rewrite str_app_cons.
  cbn [NilEmpty.uint_of_string]. by rewrite IH.
Qed.

Lemma of_uint_zeros (k : nat) (d : Decimal.uint) :
  Z.of_uint (Nat.iter k Decimal.D0 d) = Z.of_uint d.
Proof. induction k as [|k IH]; [done | exact IH]. Qed.

Lemma int_of_digits (s : string) (u : Decimal.uint) :
  s ≠ "" -> NilEmpty.uint_of_string s = Some u ->
  NilEmpty.int_of_string s = Some (Decimal.Pos u).
Proof.
  destruct s as [|a s]; [done|]. intros _ Hu.
  cbn [NilEmpty.int_of_string]. destruct (Ascii.eqb_spec a "-") as [->|_].
  - cbn in Hu. by destruct (NilEmpty.uint_of_string s).
  - by rewrite Hu.
Qed.

Lemma uint0_as_uint (d : Decimal.uint) :
  ∃ d', NilZero.string_of_uint d = NilEmpty.string_of_uint d'
        ∧ Z.of_uint d' = Z.of_uint d.
Proof. destruct d; [by exists (Decimal.D0 Decimal.Nil) | by eexists..]. Qed.

Lemma uint_of_zfill (width : nat) (d : Decimal.uint) :
  ∃ u, NilEmpty.uint_of_string (zfill width (NilZero.string_of_uint d)) = Some u
       ∧ Z.of_uint u = Z.of_uint d.
Proof.
  destruct (uint0_as_uint d) as (d' & Hd' & Hz). unfold zfill. rewrite Hd'.
  eexists. split; [apply uint_of_zeros|]. by rewrite of_uint_zeros.
Qed.

(** A formatted integer reads back as itself. *)
Lemma parse_int_format (width : nat) (z : Z) :
  parse_int (format_0d width z) = Some z.
Proof.
  unfold parse_int, format_0d.
  destruct (Z.to_int z) as [d|d] eqn:Hz.
  - destruct (uint_of_zfill width d) as (u & Hu & Hud).
    rewrite (int_of_digits _ u); [|  | exact Hu].
    + cbn [option_map Z.of_int]. rewrite Hud.
      change (Z.of_uint d) with (Z.of_int (Decimal.Pos d)).
      by rewrite <- Hz, DecimalZ.of_to.
    + unfold zfill. intros H. apply (f_equal String.length) in H.
      rewrite str_length_app in H. pose proof (uint0_nonempty d).
      destruct (NilZero.string_of_uint d); [done|]. cbn [String.length] in H. lia.
  - destruct (uint_of_zfill (width - 1) d) as (u & Hu & Hud).
    cbn [NilEmpty.int_of_string]. rewrite Hu. cbn [option_map Z.of_int Ascii.eqb].
    cbn. rewrite Hud.
    change (- Z.of_uint d) with (Z.of_int (Decimal.Neg d)).
    by rewrite <- Hz, DecimalZ.of_to.
Qed.

Lemma format_0d_inj (width : nat) (z1 z2 : Z) :
  format_0d width z1 = format_0d width z2 -> z1 = z2.
Proof.
  intros H. apply (f_equal parse_int) in H.
  rewrite !parse_int_format in H. by injection H.
Qed.

(** ** Checkpoint paths of [NLPDDPPlugin] *)

Lemma rank_dir_clean (d : string) (r : Z) :
  let h := d +:+ "/mp_rank_" +:+ format_0d 2 r in
  h ≠ "" ∧ endswith_sep h = false.
Proof.
  intros h. unfold h. split.
  - intros H. apply (f_equal String.length) in H.
    rewrite !str_length_app in H. cbn [String.length] in H. lia.
  - rewrite <- str_app_assoc. rewrite endswith_sep_app by apply format_0d_nonempty.
    apply no_sep_endswith, format_0d_no_sep.
Qed.

Lemma inject_model_parallel (app_state : nlp_overrides.AppState)
    (filepath : string) (r : Z) :
  nlp_overrides.is_model_parallel app_state = true ->
  nlp_overrides.model_parallel_rank app_state = Some r ->
  nlp_overrides._inject_model_parallel_rank app_state filepath
  = nlp_overrides.Returns
      ((dirname filepath +:+ "/mp_rank_" +:+ format_0d 2 r)
       +:+ String "/" (basename filepath)).
Proof.
  intros Hmp Hr. unfold nlp_overrides._inject_model_parallel_rank.
  rewrite Hmp, Hr. cbn [nlp_overrides.format_02d mbind nlp_overrides.outcome_bind].
  f_equal. by rewrite !str_app_assoc.
Qed.

(** X1 — With model parallelism (size above 1) a checkpoint path keeps its
    file name and is moved into the sub-directory [mp_rank_XX] of its
    directory, [XX] being the rank on two digits: [os.path.basename] of the
    result is that of the path given, and [os.path.dirname] of the result is
    the directory of the path given followed by [/mp_rank_XX]. *)
Theorem inject_rank_keeps_file_name (app_state : nlp_overrides.AppState)
    (filepath : string) (r : Z) :
  nlp_overrides.is_model_parallel app_state = true ->
  nlp_overrides.model_parallel_rank app_state = Some r ->
  ∃ p,
    nlp_overrides._inject_model_parallel_rank app_state filepath
    = nlp_overrides.Returns p
    ∧ basename p = basename filepath
    ∧ dirname p = dirname filepath +:+ "/mp_rank_" +:+ format_0d 2 r.
Proof.
  intros Hmp Hr. eexists. split; [by apply inject_model_parallel|].
  destruct (rank_dir_clean (dirname filepath) r) as [Hne Hend].
  split.
  - apply basename_app, basename_no_sep.
  - apply dirname_app; [done | done | apply basename_no_sep].
Qed.

Lemma inject_rank_keeps_file_name_witness :
  nlp_overrides.is_model_parallel OverridesExamples.rank1_of_2 = true
  ∧ nlp_overrides.model_parallel_rank OverridesExamples.rank1_of_2 = Some 1
  ∧ ∃ p,
      nlp_overrides._inject_model_parallel_rank OverridesExamples.rank1_of_2
        "/exp/checkpoints/last.ckpt" = nlp_overrides.Returns p
      ∧ basename p = basename "/exp/checkpoints/last.ckpt"
      ∧ dirname p = dirname "/exp/checkpoints/last.ckpt" +:+ "/mp_rank_"
                    +:+ format_0d 2 1.
Proof.
  split; [reflexivity|]. split; [reflexivity|].
  apply (inject_rank_keeps_file_name OverridesExamples.rank1_of_2
           "/exp/checkpoints/last.ckpt" 1); reflexivity.
Defined.

(** X2 — Processes of different model-parallel ranks never get the same
    checkpoint path for the same file path. *)
Theorem inject_rank_separates_ranks (s1 s2 : nlp_overrides.AppState)
    (filepath : string) (r1 r2 : Z) :
  nlp_overrides.is_model_parallel s1 = true ->
  nlp_overrides.is_model_parallel s2 = true ->
  nlp_overrides.model_parallel_rank s1 = Some r1 ->
  nlp_overrides.model_parallel_rank s2 = Some r2 ->
  r1 ≠ r2 ->
  nlp_overrides._inject_model_parallel_rank s1 filepath
  ≠ nlp_overrides._inject_model_parallel_rank s2 filepath.
Proof.
  intros Hmp1 Hmp2 Hr1 Hr2 Hne.
  rewrite (inject_model_parallel s1 filepath r1), (inject_model_parallel s2 filepath r2)
    by done.
  intros [= H]. apply Hne.
  apply str_app_inv_tail in H. rewrite ?str_app_assoc in H.
  apply str_app_inv_head in H. apply str_app_inv_head in H.
  by apply format_0d_inj in H.
Qed.

Lemma inject_rank_separates_ranks_witness :
  nlp_overrides.is_model_parallel OverridesExamples.rank0_of_2 = true
  ∧ nlp_overrides.is_model_parallel OverridesExamples.rank1_of_2 = true
  ∧ nlp_overrides.model_parallel_rank OverridesExamples.rank0_of_2 = Some 0
  ∧ nlp_overrides.model_parallel_rank OverridesExamples.rank1_of_2 = Some 1
  ∧ 0 ≠ 1
  ∧ nlp_overrides._inject_model_parallel_rank OverridesExamples.rank0_of_2
      "/exp/checkpoints/last.ckpt"
    ≠ nlp_overrides._inject_model_parallel_rank OverridesExamples.rank1_of_2
        "/exp/checkpoints/last.ckpt".
Proof.
  repeat (split; [reflexivity || discriminate|]).
  apply (inject_rank_separates_ranks OverridesExamples.rank0_of_2
           OverridesExamples.rank1_of_2 "/exp/checkpoints/last.ckpt" 0 1);
    reflexivity || discriminate.
Defined.

Lemma no_sep_dirname_basename (p : string) :
  has_sep p = false -> dirname p = "" ∧ basename p = p.
Proof.
  intros Hp. apply rfind_sep_end_no_sep in Hp. unfold dirname, basename.
  rewrite Hp. split; [by destruct p | by destruct p].
Qed.

(** X3 — For a file path without a directory part (no slash), the path
    injected under model parallelism is [/mp_rank_XX/] followed by the file
    name: a path from the root of the file system, not one relative to the
    working directory. *)
Theorem inject_rank_bare_name_is_rooted (app_state : nlp_overrides.AppState)
    (filepath : string) (r : Z) :
  nlp_overrides.is_model_parallel app_state = true ->
  nlp_overrides.model_parallel_rank app_state = Some r ->
  has_sep filepath = false ->
  ∃ p,
    nlp_overrides._inject_model_parallel_rank app_state filepath
    = nlp_overrides.Returns p
    ∧ p = "/mp_rank_" +:+ format_0d 2 r +:+ "/" +:+ filepath
    ∧ startswith_sep p = true.
Proof.
  intros Hmp Hr Hbare. eexists. split; [by apply inject_model_parallel|].
  destruct (no_sep_dirname_basename filepath Hbare) as [-> ->].
  rewrite str_app_nil_l, str_app_assoc. done.
Qed.

Lemma inject_rank_bare_name_is_rooted_witness :
  nlp_overrides.is_model_parallel OverridesExamples.rank1_of_2 = true
  ∧ nlp_overrides.model_parallel_rank OverridesExamples.rank1_of_2 = Some 1
  ∧ has_sep "last.ckpt" = false
  ∧ ∃ p,
      nlp_overrides._inject_model_parallel_rank OverridesExamples.rank1_of_2
        "last.ckpt" = nlp_overrides.Returns p
      ∧ p = "/mp_rank_" +:+ format_0d 2 1 +:+ "/" +:+ "last.ckpt"
      ∧ startswith_sep p = true.
Proof.
  split; [reflexivity|]. split; [reflexivity|]. split; [reflexivity|].
  apply (inject_rank_bare_name_is_rooted OverridesExamples.rank1_of_2
           "last.ckpt" 1); reflexivity.
Defined.

(** ** [NLPSaveRestoreConnector.save_to] *)

Lemma join_step_relative (path b : string) :
  path ≠ "" -> endswith_sep path = false -> startswith_sep b = false ->
  join_step path b = path +:+ String "/" b.
Proof.
  intros Hne Hend Hb. unfold join_step. rewrite Hb, decide_False, Hend by done.
  reflexivity.
Qed.

Lemma join_step_inj (path b1 b2 : string) :
  startswith_sep b1 = false -> startswith_sep b2 = false ->
  join_step path b1 = join_step path b2 -> b1 = b2.
Proof.
  intros H1 H2. unfold join_step. rewrite H1, H2.
  destruct (decide (path = "")); [apply str_app_inv_head|].
  destruct (endswith_sep path); [apply str_app_inv_head|].
  intros H. apply str_app_inv_head in H. by apply str_app_inv_head in H.
Qed.

Lemma rank_name_inj (suffix : string) (r1 r2 : Z) :
  "mp_rank_" +:+ format_0d 2 r1 +:+ suffix = "mp_rank_" +:+ format_0d 2 r2 +:+ suffix ->
  r1 = r2.
Proof.
  intros H. apply str_app_inv_head in H. apply str_app_inv_tail in H.
  by apply format_0d_inj in H.
Qed.

Lemma archive_dir_clean (tmpdir : string) (r : Z) :
  archive_dir tmpdir r ≠ "" ∧ endswith_sep (archive_dir tmpdir r) = false.
Proof.
  unfold archive_dir, path_join. cbn [foldl]. unfold join_step.
  cbn [startswith_sep append Ascii.eqb Bool.eqb].
  assert (∀ pre, let h := pre +:+ "mp_rank_" +:+ format_0d 2 r in
                 h ≠ "" ∧ endswith_sep h = false) as Hclean.
  { intros pre h. unfold h. split.
    - intros H. apply (f_equal String.length) in H.
      rewrite !str_length_app in H. cbn [String.length] in H. lia.
    - rewrite <- str_app_assoc. rewrite endswith_sep_app by apply format_0d_nonempty.
      apply no_sep_endswith, format_0d_no_sep. }
  destruct (decide (tmpdir = "")); [apply Hclean|].
  destruct (endswith_sep tmpdir); [apply Hclean|].
  rewrite <- str_app_assoc. apply Hclean.
Qed.

Lemma archive_path_eq (model_weights_ckpt tmpdir : string) (r : Z) :
  startswith_sep model_weights_ckpt = false ->
  archive_path model_weights_ckpt tmpdir r
  = archive_dir tmpdir r +:+ String "/" model_weights_ckpt.
Proof.
  intros Hckpt. destruct (archive_dir_clean tmpdir r) as [Hne Hend].
  unfold archive_path, path_join. cbn [foldl].
  change (join_step tmpdir ("mp_rank_" +:+ format_0d 2 r)) with (archive_dir tmpdir r).
  by apply join_step_relative.
Qed.

Lemma archive_dir_inj (tmpdir : string) (r1 r2 : Z) :
  archive_dir tmpdir r1 = archive_dir tmpdir r2 -> r1 = r2.
Proof.
  unfold archive_dir, path_join. cbn [foldl]. intros H.
  apply join_step_inj in H; [|done..].
  apply (rank_name_inj "" r1 r2). by rewrite !str_app_nil_r.
Qed.

Lemma staging_path_inj (model_weights_ckpt save_path : string) (r1 r2 : Z) :
  staging_path model_weights_ckpt save_path r1
  = staging_path model_weights_ckpt save_path r2 -> r1 = r2.
Proof.
  unfold staging_path, path_join. cbn [foldl]. intros H.
  apply join_step_inj in H; [|done..].
  by apply (rank_name_inj ("_" +:+ model_weights_ckpt) r1 r2).
Qed.

Section SaveToFacts.

Variable model_weights_ckpt : string.
Variable model_config_yaml : string.
Variable tmpdir : string.
Variable has_artifacts : bool.
Variable save_path : string.

(** The calls of the loop over the ranks. *)
Lemma move_loop_run (ranks : list Z) (u : unit) :
  for_loop (fun _ mp_rank =>
              nlp_overrides.move_rank_weights model_weights_ckpt tmpdir
                (dirname save_path) mp_rank) ranks u
  = (flat_map (fun r =>
                 [nlp_overrides.MakeDirs (archive_dir tmpdir r);
                  nlp_overrides.Move (staging_path model_weights_ckpt save_path r)
                                     (archive_path model_weights_ckpt tmpdir r)])
              ranks,
     nlp_overrides.Returns tt).
Proof.
  destruct u. induction ranks as [|r ranks IH]; [reflexivity|].
  cbn [for_loop flat_map].
  unfold mbind at 1, nlp_overrides.T_bind at 1.
  unfold nlp_overrides.move_rank_weights at 1.
  cbn [mbind nlp_overrides.T_bind nlp_overrides.do app].
  rewrite IH. reflexivity.
Qed.

Lemma moves_flat_map (ranks : list Z) (tail : list nlp_overrides.call) :
  moves tail = [] ->
  moves (flat_map (fun r =>
                 [nlp_overrides.MakeDirs (archive_dir tmpdir r);
                  nlp_overrides.Move (staging_path model_weights_ckpt save_path r)
                                     (archive_path model_weights_ckpt tmpdir r)])
              ranks ++ tail)
  = map (fun r => (staging_path model_weights_ckpt save_path r,
                   archive_path model_weights_ckpt tmpdir r)) ranks.
Proof.
  intros Htail. induction ranks as [|r ranks IH]; [exact Htail|].
  cbn [flat_map app moves map]. by rewrite IH.
Qed.

Lemma made_dirs_flat_map (ranks : list Z) (tail : list nlp_overrides.call) :
  made_dirs tail = [] ->
  made_dirs (flat_map (fun r =>
                 [nlp_overrides.MakeDirs (archive_dir tmpdir r);
                  nlp_overrides.Move (staging_path model_weights_ckpt save_path r)
                                     (archive_path model_weights_ckpt tmpdir r)])
              ranks ++ tail)
  = map (archive_dir tmpdir) ranks.
Proof.
  intros Htail. induction ranks as [|r ranks IH]; [exact Htail|].
  cbn [flat_map app made_dirs map]. by rewrite IH.
Qed.

Lemma barriers_flat_map (ranks : list Z) (tail : list nlp_overrides.call) :
  barriers (flat_map (fun r =>
                 [nlp_overrides.MakeDirs (archive_dir tmpdir r);
                  nlp_overrides.Move (staging_path model_weights_ckpt save_path r)
                                     (archive_path model_weights_ckpt tmpdir r)])
              ranks ++ tail)
  = barriers tail.
Proof. induction ranks as [|r ranks IH]; [done | exact IH]. Qed.

(** The calls of the process that builds the archive. *)
Lemma save_to_rank0_run (size : Z) :
  size > 1 ->
  nlp_overrides.save_to model_weights_ckpt model_config_yaml tmpdir has_artifacts
    (process_state size 0 0) save_path
  = ([nlp_overrides.SaveStateDictToDisk (staging_path model_weights_ckpt save_path 0);
      nlp_overrides.Barrier]
     ++ flat_map (fun r =>
                 [nlp_overrides.MakeDirs (archive_dir tmpdir r);
                  nlp_overrides.Move (staging_path model_weights_ckpt save_path r)
                                     (archive_path model_weights_ckpt tmpdir r)])
              (py_range size)
     ++ nlp_overrides.ToConfigFile (path_join tmpdir [model_config_yaml])
        :: (if has_artifacts
            then [nlp_overrides.HandleArtifacts tmpdir;
                  nlp_overrides.UpdateArtifactPaths (path_join tmpdir [model_config_yaml])]
            else [])
        ++ [nlp_overrides.MakeNemoFileFromFolder save_path tmpdir],
     nlp_overrides.Returns tt).
Proof.
  intros Hsize. unfold nlp_overrides.save_to, process_state.
  cbn [nlp_overrides.model_parallel_size nlp_overrides.model_parallel_rank
       nlp_overrides.data_parallel_rank].
  rewrite bool_decide_eq_true_2 by done.
  rewrite !(bool_decide_eq_true_2 (Some 0 = Some 0)) by done.
  cbn [andb nlp_overrides.format_02d].
  unfold mbind at 1, nlp_overrides.T_bind at 1.
  cbn [nlp_overrides.of_outcome mbind nlp_overrides.T_bind nlp_overrides.do app].
  rewrite move_loop_run.
  destruct has_artifacts; cbn; by rewrite ?app_nil_r.
Qed.

(** The calls of any other process of the group. *)
Lemma save_to_other_run (size mp_rank dp_rank : Z) :
  size > 1 -> ¬ (mp_rank = 0 ∧ dp_rank = 0) ->
  nlp_overrides.save_to model_weights_ckpt model_config_yaml tmpdir has_artifacts
    (process_state size mp_rank dp_rank) save_path
  = ((if bool_decide (dp_rank = 0)
      then [nlp_overrides.SaveStateDictToDisk
              (staging_path model_weights_ckpt save_path mp_rank)]
      else [])
     ++ [nlp_overrides.Barrier],
     nlp_overrides.Returns tt).
Proof.
  intros Hsize Hother. unfold nlp_overrides.save_to, process_state.
  cbn [nlp_overrides.model_parallel_size nlp_overrides.model_parallel_rank
       nlp_overrides.data_parallel_rank].
  rewrite bool_decide_eq_true_2 by done.
  assert (bool_decide (Some mp_rank = Some 0) && bool_decide (Some dp_rank = Some 0)
          = false) as ->.
  { apply andb_false_iff.
    destruct (decide (mp_rank = 0)) as [->|Hmp].
    - right. apply bool_decide_eq_false_2. intros [= ->]. by apply Hother.
    - left. apply bool_decide_eq_false_2. by intros [= ->]. }
  destruct (decide (dp_rank = 0)) as [->|Hdp].
  - rewrite !(bool_decide_eq_true_2 (Some 0 = Some 0)) by done.
    rewrite (bool_decide_eq_true_2 (0 = 0)) by done. reflexivity.
  - rewrite (bool_decide_eq_false_2 (Some dp_rank = Some 0)) by (by intros [= ->]).
    rewrite (bool_decide_eq_false_2 (dp_rank = 0)) by done. reflexivity.
Qed.

End SaveToFacts.

Lemma moves_rank0 (model_weights_ckpt model_config_yaml tmpdir : string)
    (has_artifacts : bool) (save_path : string) (size : Z) :
  size > 1 ->
  moves (fst (nlp_overrides.save_to model_weights_ckpt model_config_yaml tmpdir
                has_artifacts (process_state size 0 0) save_path))
  = map (fun r => (staging_path model_weights_ckpt save_path r,
                   archive_path model_weights_ckpt tmpdir r)) (py_range size).
Proof.
  intros Hsize. rewrite save_to_rank0_run by done. cbn [fst app moves].
  apply moves_flat_map. by destruct has_artifacts.
Qed.

Lemma made_dirs_rank0 (model_weights_ckpt model_config_yaml tmpdir : string)
    (has_artifacts : bool) (save_path : string) (size : Z) :
  size > 1 ->
  made_dirs (fst (nlp_overrides.save_to model_weights_ckpt model_config_yaml tmpdir
                    has_artifacts (process_state size 0 0) save_path))
  = map (archive_dir tmpdir) (py_range size).
Proof.
  intros Hsize. rewrite save_to_rank0_run by done. cbn [fst app made_dirs].
  apply made_dirs_flat_map. by destruct has_artifacts.
Qed.

Lemma NoDup_py_range (n : Z) : NoDup (py_range n).
Proof.
  unfold py_range. apply (NoDup_fmap_2 Z.of_nat), NoDup_seq.
Qed.

(** X4 — In a model-parallel save, the process that builds the archive
    moves one weights file per rank, in rank order, and the file it moves
    for rank [r] is the very path to which the process of model-parallel
    rank [r] (and data-parallel rank 0) saved its weights before the
    barrier. *)
Theorem save_to_moves_what_each_rank_saved
    (model_weights_ckpt model_config_yaml tmpdir : string) (has_artifacts : bool)
    (save_path : string) (size : Z) :
  size > 1 ->
  Forall2 (fun r mv =>
             ∃ rest,
               fst (nlp_overrides.save_to model_weights_ckpt model_config_yaml
                      tmpdir has_artifacts (process_state size r 0) save_path)
               = nlp_overrides.SaveStateDictToDisk (fst mv) :: rest)
          (py_range size)
          (moves (fst (nlp_overrides.save_to model_weights_ckpt model_config_yaml
                         tmpdir has_artifacts (process_state size 0 0) save_path))).
Proof.
  intros Hsize. rewrite moves_rank0 by done.
  apply Forall2_fmap_r, Forall_Forall2_diag, Forall_forall. intros r _.
  cbn [fst]. destruct (decide (r = 0)) as [->|Hr].
  - rewrite save_to_rank0_run by done. cbn [fst app]. eauto.
  - rewrite save_to_other_run by (done || by intros [? _]).
    rewrite bool_decide_eq_true_2 by done. cbn [fst app]. eauto.
Qed.

Lemma save_to_moves_what_each_rank_saved_witness :
  2 > 1
  ∧ Forall2 (fun r mv =>
             ∃ rest,
               fst (nlp_overrides.save_to "model_weights.ckpt" "model_config.yaml"
                      "/tmp/nemo" true (process_state 2 r 0) "/out/model.nemo")
               = nlp_overrides.SaveStateDictToDisk (fst mv) :: rest)
          (py_range 2)
          (moves (fst (nlp_overrides.save_to "model_weights.ckpt" "model_config.yaml"
                         "/tmp/nemo" true (process_state 2 0 0) "/out/model.nemo"))).
Proof.
  split; [reflexivity|].
  apply (save_to_moves_what_each_rank_saved "model_weights.ckpt" "model_config.yaml"
           "/tmp/nemo" true "/out/model.nemo" 2).
  reflexivity.
Defined.

(** X5 — The files moved by the archive-building process are pairwise
    distinct, and so are the places they are moved to, provided the name of
    the weights file is not an absolute path: no rank's weights overwrite
    another's. *)
Theorem save_to_ranks_do_not_collide
    (model_weights_ckpt model_config_yaml tmpdir : string) (has_artifacts : bool)
    (save_path : string) (size : Z) :
  size > 1 ->
  startswith_sep model_weights_ckpt = false ->
  let mvs := moves (fst (nlp_overrides.save_to model_weights_ckpt model_config_yaml
                           tmpdir has_artifacts (process_state size 0 0) save_path)) in
  Z.of_nat (length mvs) = size ∧ NoDup (map fst mvs) ∧ NoDup (map snd mvs).
Proof.
  intros Hsize Hckpt mvs. unfold mvs. rewrite moves_rank0 by done.
  rewrite length_map, !map_map. cbn [fst snd].
  split; [unfold py_range; rewrite length_map, length_seq; lia|].
  split.
  - assert (Inj (=) (=) (fun r => staging_path model_weights_ckpt save_path r))
      by (intros r1 r2; apply staging_path_inj).
    apply (NoDup_fmap_2 _), NoDup_py_range.
  - assert (Inj (=) (=) (fun r => archive_path model_weights_ckpt tmpdir r)).
    { intros r1 r2. rewrite !archive_path_eq by done.
      intros H. apply str_app_inv_tail in H. by apply archive_dir_inj in H. }
    apply (NoDup_fmap_2 _), NoDup_py_range.
Qed.

Lemma save_to_ranks_do_not_collide_witness :
  2 > 1
  ∧ startswith_sep "model_weights.ckpt" = false
  ∧ let mvs := moves (fst (nlp_overrides.save_to "model_weights.ckpt"
                             "model_config.yaml" "/tmp/nemo" true
                             (process_state 2 0 0) "/out/model.nemo")) in
    Z.of_nat (length mvs) = 2 ∧ NoDup (map fst mvs) ∧ NoDup (map snd mvs).
Proof.
  split; [reflexivity|]. split; [reflexivity|].
  apply (save_to_ranks_do_not_collide "model_weights.ckpt" "model_config.yaml"
           "/tmp/nemo" true "/out/model.nemo" 2); reflexivity.
Defined.

(** X6 — When the name of the weights file holds no slash, every file is
    moved straight into the folder that was made for its rank, under the
    name of the weights file: the directory of the [i]-th destination is the
    [i]-th folder made, and its file name is the weights file name. *)
Theorem save_to_moves_into_rank_folders
    (model_weights_ckpt model_config_yaml tmpdir : string) (has_artifacts : bool)
    (save_path : string) (size : Z) :
  size > 1 ->
  has_sep model_weights_ckpt = false ->
  let cs := fst (nlp_overrides.save_to model_weights_ckpt model_config_yaml tmpdir
                   has_artifacts (process_state size 0 0) save_path) in
  Forall2 (fun folder mv =>
             dirname (snd mv) = folder ∧ basename (snd mv) = model_weights_ckpt)
          (made_dirs cs) (moves cs).
Proof.
  intros Hsize Hckpt cs. unfold cs.
  rewrite moves_rank0, made_dirs_rank0 by done.
  apply Forall2_fmap, Forall_Forall2_diag, Forall_forall. intros r _.
  cbn [snd]. destruct (archive_dir_clean tmpdir r) as [Hne Hend].
  rewrite archive_path_eq by (by destruct model_weights_ckpt as [|c s];
    [|cbn in *; apply orb_false_iff in Hckpt as [-> _]]).
  split; [by apply dirname_app | by apply basename_app].
Qed.

Lemma save_to_moves_into_rank_folders_witness :
  2 > 1
  ∧ has_sep "model_weights.ckpt" = false
  ∧ let cs := fst (nlp_overrides.save_to "model_weights.ckpt" "model_config.yaml"
                     "/tmp/nemo" true (process_state 2 0 0) "/out/model.nemo") in
    Forall2 (fun folder mv =>
               dirname (snd mv) = folder ∧ basename (snd mv) = "model_weights.ckpt")
            (made_dirs cs) (moves cs).
Proof.
  split; [reflexivity|]. split; [reflexivity|].
  apply (save_to_moves_into_rank_folders "model_weights.ckpt" "model_config.yaml"
           "/tmp/nemo" true "/out/model.nemo" 2); reflexivity.
Defined.

(** X7 — In a model-parallel save, every process whose ranks are set
    returns normally and reaches the barrier exactly once, whatever its
    ranks, so no process waits for another that skipped it. *)
Theorem save_to_every_rank_reaches_barrier
    (model_weights_ckpt model_config_yaml tmpdir : string) (has_artifacts : bool)
    (save_path : string) (size mp_rank dp_rank : Z) :
  size > 1 ->
  let run := nlp_overrides.save_to model_weights_ckpt model_config_yaml tmpdir
               has_artifacts (process_state size mp_rank dp_rank) save_path in
  snd run = nlp_overrides.Returns tt ∧ barriers (fst run) = 1%nat.
Proof.
  intros Hsize run. unfold run.
  destruct (decide (mp_rank = 0 ∧ dp_rank = 0)) as [[-> ->]|Hother].
  - rewrite save_to_rank0_run by done. cbn [fst snd app barriers].
    split; [done|]. rewrite barriers_flat_map. by destruct has_artifacts.
  - rewrite save_to_other_run by done. cbn [fst snd].
    split; [done|]. by destruct (bool_decide (dp_rank = 0)).
Qed.

Lemma save_to_every_rank_reaches_barrier_witness :
  2 > 1
  ∧ let run := nlp_overrides.save_to "model_weights.ckpt" "model_config.yaml"
                 "/tmp/nemo" true (process_state 2 1 3) "/out/model.nemo" in
    snd run = nlp_overrides.Returns tt ∧ barriers (fst run) = 1%nat.
Proof.
  split; [reflexivity|].
  apply (save_to_every_rank_reaches_barrier "model_weights.ckpt" "model_config.yaml"
           "/tmp/nemo" true "/out/model.nemo" 2 1 3).
  reflexivity.
Defined.

(** X18 — In a model-parallel save, the processes that write their
    weights to disk are exactly those for which
    [should_rank_save_checkpoint] holds (data-parallel rank 0). *)
Theorem save_to_saves_where_rank_should_save
    (model_weights_ckpt model_config_yaml tmpdir : string) (has_artifacts : bool)
    (save_path : string) (size mp_rank dp_rank : Z) (super_value : bool) :
  size > 1 ->
  (∃ path, nlp_overrides.SaveStateDictToDisk path
           ∈ fst (nlp_overrides.save_to model_weights_ckpt model_config_yaml tmpdir
                    has_artifacts (process_state size mp_rank dp_rank) save_path))
  <-> nlp_overrides.should_rank_save_checkpoint
        (process_state size mp_rank dp_rank) super_value = true.
Proof.
  intros Hsize.
  assert (nlp_overrides.should_rank_save_checkpoint
            (process_state size mp_rank dp_rank) super_value
          = bool_decide (dp_rank = 0)) as ->.
  { unfold nlp_overrides.should_rank_save_checkpoint, nlp_overrides.is_model_parallel.
    cbn. rewrite (bool_decide_eq_true_2 (size > 1)) by done.
    destruct (decide (dp_rank = 0)) as [->|Hdp].
    - by rewrite !bool_decide_eq_true_2.
    - rewrite !bool_decide_eq_false_2; [done | done | by intros [= ->]]. }
  destruct (decide (mp_rank = 0 ∧ dp_rank = 0)) as [[-> ->]|Hother].
  - rewrite save_to_rank0_run by done. cbn [fst app].
    split; [done|]. intros _. eexists. by left.
  - rewrite save_to_other_run by done. cbn [fst].
    destruct (decide (dp_rank = 0)) as [->|Hdp].
    + rewrite bool_decide_eq_true_2 by done. split; [done|]. intros _.
      eexists. by left.
    + rewrite bool_decide_eq_false_2 by done. cbn [app]. split; [|done].
      intros [path Hin]. apply list_elem_of_singleton in Hin. discriminate.
Qed.

Lemma save_to_saves_where_rank_should_save_witness :
  2 > 1
  ∧ ((∃ path, nlp_overrides.SaveStateDictToDisk path
              ∈ fst (nlp_overrides.save_to "model_weights.ckpt" "model_config.yaml"
                       "/tmp/nemo" true (process_state 2 1 0) "/out/model.nemo"))
     <-> nlp_overrides.should_rank_save_checkpoint (process_state 2 1 0) false = true).
Proof.
  split; [reflexivity|].
  apply (save_to_saves_where_rank_should_save "model_weights.ckpt" "model_config.yaml"
           "/tmp/nemo" true "/out/model.nemo" 2 1 0 false).
  reflexivity.
Defined.

(** ** [MegatronHalfPrecisionPlugin.optimizer_step] *)

(** X19 — With a scaler set, [optimizer_step] never reaches
    [self.scaler.step] nor [self.scaler.update]: the module binds neither
    [pl] nor [MisconfigurationException], so the call raises [NameError],
    at once for an LBFGS optimizer and otherwise after the closure, the
    copy of the gradients, the unscaling and [_after_closure] have run. *)
Theorem optimizer_step_with_scaler_raises_name_error
    (optimizer_is_lbfgs closure_returns_none model_is_lightning
       automatic_optimization : bool) (optimizer_idx : Z) :
  nlp_overrides.optimizer_step false optimizer_is_lbfgs closure_returns_none
    model_is_lightning automatic_optimization optimizer_idx
  = if optimizer_is_lbfgs
    then ([], nlp_overrides.Raises (nlp_overrides.NameError "MisconfigurationException"))
    else ([nlp_overrides.Closure; nlp_overrides.CopyModelGradsToMainGrads;
           nlp_overrides.ScalerUnscale; nlp_overrides.AfterClosure],
          nlp_overrides.Raises (nlp_overrides.NameError "pl")).
Proof. by destruct optimizer_is_lbfgs. Qed.

(** ** Precision conversions *)

(** Induction on nested values. *)
Lemma pyval_nested_ind {obj : Type} (P : nlp_overrides.pyval obj -> Prop) :
  (∀ o, P (nlp_overrides.Obj o)) ->
  (∀ l, Forall P l -> P (nlp_overrides.PyTuple l)) ->
  (∀ l, Forall P l -> P (nlp_overrides.PyList l)) ->
  ∀ v, P v.
Proof.
  intros Hobj Htuple Hlist. fix IH 1. intros [o|l|l].
  - apply Hobj.
  - apply Htuple. induction l as [|v l IHl]; constructor; [apply IH | exact IHl].
  - apply Hlist. induction l as [|v l IHl]; constructor; [apply IH | exact IHl].
Qed.

Section PrecisionFacts.

Context {obj : Type}.
Variable is_parameter_or_variable : obj -> bool.
Variable data : obj -> obj.
Variable type_of : obj -> option nlp_overrides.tensor_type.
Variable to_float : obj -> obj.

Abbreviation isinstance := (nlp_overrides.isinstance obj type_of).
Abbreviation conversion_helper := (nlp_overrides.conversion_helper obj).
Abbreviation fp32_to_float16 :=
  (nlp_overrides.fp32_to_float16 obj is_parameter_or_variable data type_of).
Abbreviation float16_to_fp32 :=
  (nlp_overrides.float16_to_fp32 obj is_parameter_or_variable data type_of to_float).
Abbreviation half_types := (nlp_overrides._BF16_TYPES ++ nlp_overrides._HALF_TYPES).

Lemma flat_map_ext_Forall {A B} (f g : A -> list B) (l : list A) :
  Forall (fun x => f x = g x) l -> flat_map f l = flat_map g l.
Proof. induction 1 as [|x l Hx _ IH]; [done|]. cbn. by rewrite Hx, IH. Qed.

Lemma map_ext_Forall' {A B} (f g : A -> B) (l : list A) :
  Forall (fun x => f x = g x) l -> map f l = map g l.
Proof. induction 1 as [|x l Hx _ IH]; [done|]. cbn. by rewrite Hx, IH. Qed.

Lemma leaves_conversion_helper (f : obj -> obj) (v : nlp_overrides.pyval obj) :
  leaves (conversion_helper v (fun o => nlp_overrides.Obj (f o))) = map f (leaves v).
Proof.
  induction v as [o|l IH|l IH] using pyval_nested_ind; [done|..];
    cbn [nlp_overrides.conversion_helper leaves];
    rewrite flat_map_concat_map, map_map, <- flat_map_concat_map;
    (induction IH as [|v l Hv _ IHl]; [done|]);
    cbn [flat_map]; by rewrite map_app, Hv, IHl.
Qed.

Lemma shape_conversion_helper (f : obj -> obj) (v : nlp_overrides.pyval obj) :
  shape_of (conversion_helper v (fun o => nlp_overrides.Obj (f o))) = shape_of v.
Proof.
  induction v as [o|l IH|l IH] using pyval_nested_ind; [done|..];
    cbn [nlp_overrides.conversion_helper shape_of]; f_equal;
    rewrite map_map; by apply map_ext_Forall'.
Qed.

Lemma conversion_helper_id (conversion : obj -> nlp_overrides.pyval obj)
    (v : nlp_overrides.pyval obj) :
  Forall (fun o => conversion o = nlp_overrides.Obj o) (leaves v) ->
  conversion_helper v conversion = v.
Proof.
  induction v as [o|l IH|l IH] using pyval_nested_ind;
    cbn [nlp_overrides.conversion_helper leaves]; intros Hleaves.
  - exact (Forall_inv Hleaves).
  - f_equal. induction IH as [|v l Hv _ IHl]; [done|].
    cbn [flat_map] in Hleaves. apply Forall_app in Hleaves as [H1 H2].
    cbn [map]. by rewrite Hv, IHl.
  - f_equal. induction IH as [|v l Hv _ IHl]; [done|].
    cbn [flat_map] in Hleaves. apply Forall_app in Hleaves as [H1 H2].
    cbn [map]. by rewrite Hv, IHl.
Qed.

Lemma conversion_helper_ext (f g : obj -> nlp_overrides.pyval obj)
    (v : nlp_overrides.pyval obj) :
  (∀ o, f o = g o) -> conversion_helper v f = conversion_helper v g.
Proof.
  intros Hfg. induction v as [o|l IH|l IH] using pyval_nested_ind;
    [apply Hfg|..]; cbn [nlp_overrides.conversion_helper]; f_equal;
    by apply map_ext_Forall'.
Qed.

(** X8 — [conversion_helper] keeps the nesting of tuples and lists of its
    argument and applies the conversion to every object once, from left to
    right (for a conversion that returns one object). *)
Theorem conversion_helper_keeps_nesting (f : obj -> obj)
    (v : nlp_overrides.pyval obj) :
  shape_of (conversion_helper v (fun o => nlp_overrides.Obj (f o))) = shape_of v
  ∧ leaves (conversion_helper v (fun o => nlp_overrides.Obj (f o)))
    = map f (leaves v).
Proof. split; [apply shape_conversion_helper | apply leaves_conversion_helper]. Qed.

Hypothesis data_type : ∀ o, type_of (data o) = type_of o.

Lemma isinstance_typecheck (o : obj) (types : list nlp_overrides.tensor_type) :
  isinstance (if is_parameter_or_variable o then data o else o) types
  = isinstance o types.
Proof.
  destruct (is_parameter_or_variable o); [|done].
  unfold nlp_overrides.isinstance. by rewrite data_type.
Qed.

(** X9 — [fp32_to_float16] returns its argument unchanged when no object
    in it is an fp32 tensor: integer tensors, half tensors and objects that
    are not tensors are never converted. *)
Theorem fp32_to_float16_keeps_other_types
    (float16_convertor : obj -> nlp_overrides.pyval obj)
    (v : nlp_overrides.pyval obj) :
  no_fp32 type_of v ->
  fp32_to_float16 v float16_convertor = v.
Proof.
  intros Hleaves. apply conversion_helper_id.
  eapply Forall_impl; [exact Hleaves|]. intros o Ho.
  unfold nlp_overrides.half_conversion. cbv zeta.
  by rewrite isinstance_typecheck, Ho.
Qed.

Hypothesis float_type : ∀ o, isinstance (to_float o) half_types = false.

Lemma float16_to_fp32_leafwise (v : nlp_overrides.pyval obj) :
  float16_to_fp32 v = conversion_helper v (fun o => nlp_overrides.Obj (as_float type_of to_float o)).
Proof.
  apply conversion_helper_ext. intros o.
  unfold nlp_overrides.float_conversion, as_float. cbv zeta.
  rewrite isinstance_typecheck. by destruct (isinstance o half_types).
Qed.

Lemma as_float_not_half (o : obj) :
  isinstance (as_float type_of to_float o) half_types = false.
Proof.
  unfold as_float. destruct (isinstance o half_types) eqn:Ho; [apply float_type | done].
Qed.

Lemma float16_to_fp32_spec (v : nlp_overrides.pyval obj) :
  shape_of (float16_to_fp32 v) = shape_of v
  ∧ leaves (float16_to_fp32 v) = map (as_float type_of to_float) (leaves v)
  ∧ no_half type_of (float16_to_fp32 v).
Proof.
  unfold no_half. rewrite float16_to_fp32_leafwise.
  split; [apply shape_conversion_helper|].
  split; [apply leaves_conversion_helper|].
  rewrite leaves_conversion_helper. apply Forall_forall. intros o Ho.
  apply list_elem_of_In, in_map_iff in Ho as (o' & <- & _). apply as_float_not_half.
Qed.

(** X10 — The value [float16_to_fp32] returns has the nesting of its
    argument and holds no half or bfloat16 tensor: every such tensor has
    been replaced by its [float()] and every other object is the one that
    was there. *)
Theorem float16_to_fp32_leaves_no_half (v : nlp_overrides.pyval obj) :
  shape_of (float16_to_fp32 v) = shape_of v
  ∧ leaves (float16_to_fp32 v)
    = map (fun o => if isinstance o half_types then to_float o else o) (leaves v)
  ∧ no_half type_of (float16_to_fp32 v).
Proof. apply float16_to_fp32_spec. Qed.

(** X11 — [float16_to_fp32] is idempotent: converting its result again
    changes nothing. *)
Theorem float16_to_fp32_idempotent (v : nlp_overrides.pyval obj) :
  float16_to_fp32 (float16_to_fp32 v) = float16_to_fp32 v.
Proof.
  apply conversion_helper_id.
  rewrite float16_to_fp32_leafwise, leaves_conversion_helper.
  apply Forall_forall. intros o Ho.
  apply list_elem_of_In, in_map_iff in Ho as (o' & <- & _).
  unfold nlp_overrides.float_conversion. cbv zeta.
  by rewrite isinstance_typecheck, as_float_not_half.
Qed.

End PrecisionFacts.

Section ForwardFacts.

Context {obj network kwargs : Type}.
Variable is_parameter_or_variable : obj -> bool.
Variable data : obj -> obj.
Variable type_of : obj -> option nlp_overrides.tensor_type.
Variable to_float to_half to_bfloat16 : obj -> obj.
Variable network_half network_bfloat16 : network -> network.
Variable network_call : network -> list (nlp_overrides.pyval obj) -> kwargs
                        -> nlp_overrides.pyval obj.

Abbreviation isinstance := (nlp_overrides.isinstance obj type_of).
Abbreviation Float16Module_init :=
  (nlp_overrides.Float16Module_init obj to_half to_bfloat16 network
     network_half network_bfloat16).
Abbreviation forward :=
  (nlp_overrides.forward obj is_parameter_or_variable data type_of to_float
     network kwargs network_call).

Hypothesis data_type : ∀ o, type_of (data o) = type_of o.
Hypothesis float_type :
  ∀ o, isinstance (to_float o)
         (nlp_overrides._BF16_TYPES ++ nlp_overrides._HALF_TYPES) = false.
Hypothesis half_type :
  ∀ o, isinstance (to_half o) nlp_overrides._FLOAT_TYPES = false.
Hypothesis bfloat16_type :
  ∀ o, isinstance (to_bfloat16 o) nlp_overrides._FLOAT_TYPES = false.

Lemma init_convertor (net : network) (precision : nlp_overrides.precision_arg)
    (self : nlp_overrides.Float16Module obj network) :
  Float16Module_init net precision = nlp_overrides.Returns self ->
  ∃ cast : obj -> obj,
    nlp_overrides.float16_convertor obj network self
    = (fun val => nlp_overrides.Obj (cast val))
    ∧ ∀ o, isinstance (cast o) nlp_overrides._FLOAT_TYPES = false.
Proof.
  unfold nlp_overrides.Float16Module_init.
  destruct (decide (precision = nlp_overrides.PrecisionInt 16));
    [intros [= <-]; by exists to_half|].
  destruct (decide (precision = nlp_overrides.PrecisionStr "bf16"));
    [intros [= <-]; by exists to_bfloat16 | done].
Qed.

Lemma fp32_to_float16_no_fp32 (cast : obj -> obj) (v : nlp_overrides.pyval obj) :
  (∀ o, isinstance (cast o) nlp_overrides._FLOAT_TYPES = false) ->
  let v' := nlp_overrides.fp32_to_float16 obj is_parameter_or_variable data type_of
              v (fun val => nlp_overrides.Obj (cast val)) in
  shape_of v' = shape_of v ∧ no_fp32 type_of v'.
Proof.
  intros Hcast v'.
  assert (v' = nlp_overrides.conversion_helper obj v (fun o => nlp_overrides.Obj
            (if isinstance o nlp_overrides._FLOAT_TYPES then cast o else o))) as ->.
  { apply conversion_helper_ext. intros o.
    unfold nlp_overrides.half_conversion. cbv zeta.
    rewrite (isinstance_typecheck is_parameter_or_variable data type_of data_type).
    by destruct (isinstance o nlp_overrides._FLOAT_TYPES). }
  split; [apply shape_conversion_helper|].
  unfold no_fp32. rewrite leaves_conversion_helper. apply Forall_forall.
  intros o Ho. apply list_elem_of_In, in_map_iff in Ho as (o' & <- & _).
  destruct (isinstance o' nlp_overrides._FLOAT_TYPES) eqn:Ho'; [apply Hcast | done].
Qed.

(** X12 — For a [Float16Module] built with precision 16 or ['bf16'], on a
    pipeline of one stage (first and last at once) [forward] calls the
    wrapped network on positional arguments that have the nesting of the
    inputs and hold no fp32 tensor, passes the keyword arguments as they
    are, and returns the network's output converted by [float16_to_fp32],
    which holds no half or bfloat16 tensor. *)
Theorem forward_casts_in_and_out (net : network)
    (precision : nlp_overrides.precision_arg)
    (self : nlp_overrides.Float16Module obj network)
    (inputs : list (nlp_overrides.pyval obj)) (kw : kwargs) :
  Float16Module_init net precision = nlp_overrides.Returns self ->
  ∃ args,
    forward self true true inputs kw
    = nlp_overrides.float16_to_fp32 obj is_parameter_or_variable data type_of
        to_float (network_call (nlp_overrides.module obj network self) args kw)
    ∧ args = map (fun v => nlp_overrides.fp32_to_float16 obj
                             is_parameter_or_variable data type_of v
                             (nlp_overrides.float16_convertor obj network self))
                 inputs
    ∧ map shape_of args = map shape_of inputs
    ∧ Forall (no_fp32 type_of) args
    ∧ no_half type_of (forward self true true inputs kw).
Proof.
  intros Hinit.
  destruct (init_convertor net precision self Hinit) as (cast & Hconv & Hcast).
  unfold nlp_overrides.forward. cbv zeta. rewrite Hconv.
  destruct (fp32_to_float16_no_fp32 cast (nlp_overrides.PyTuple inputs) Hcast)
    as [Hshape Hfp32].
  cbn [nlp_overrides.fp32_to_float16 nlp_overrides.conversion_helper] in *.
  cbn [nlp_overrides.star].
  set (args := map _ inputs) in *.
  exists args. split; [reflexivity|]. split; [reflexivity|].
  split; [by injection Hshape|].
  split.
  - unfold no_fp32 in *. cbn [leaves] in Hfp32.
    apply Forall_forall. intros v Hv. apply Forall_forall. intros o Ho.
    apply (proj1 (Forall_forall _ _) Hfp32).
    apply list_elem_of_In, in_flat_map. exists v.
    split; by apply list_elem_of_In.
  - apply (float16_to_fp32_spec is_parameter_or_variable data type_of to_float
             data_type float_type).
Qed.

End ForwardFacts.

(** *** The conversions on concrete tensors *)

Lemma toy_data_type (o : PrecisionExamples.toy) :
  PrecisionExamples.toy_type (PrecisionExamples.toy_data o)
  = PrecisionExamples.toy_type o.
Proof. reflexivity. Defined.

Lemma toy_float_type (o : PrecisionExamples.toy) :
  nlp_overrides.isinstance PrecisionExamples.toy PrecisionExamples.toy_type
    (PrecisionExamples.toy_float o)
    (nlp_overrides._BF16_TYPES ++ nlp_overrides._HALF_TYPES) = false.
Proof. destruct o as [[] payload|n]; reflexivity. Defined.

Lemma toy_half_type (o : PrecisionExamples.toy) :
  nlp_overrides.isinstance PrecisionExamples.toy PrecisionExamples.toy_type
    (PrecisionExamples.toy_half o) nlp_overrides._FLOAT_TYPES = false.
Proof. destruct o as [[] payload|n]; reflexivity. Defined.

Lemma toy_bfloat16_type (o : PrecisionExamples.toy) :
  nlp_overrides.isinstance PrecisionExamples.toy PrecisionExamples.toy_type
    (PrecisionExamples.toy_bfloat16 o) nlp_overrides._FLOAT_TYPES = false.
Proof. destruct o as [[] payload|n]; reflexivity. Defined.

Example float16_to_fp32_batch :
  nlp_overrides.float16_to_fp32 PrecisionExamples.toy
    PrecisionExamples.toy_is_variable PrecisionExamples.toy_data
    PrecisionExamples.toy_type PrecisionExamples.toy_float PrecisionExamples.batch
  = nlp_overrides.PyTuple
      [nlp_overrides.Obj (PrecisionExamples.ToyTensor
                            (nlp_overrides.OtherTensor "torch.LongTensor") 7);
       nlp_overrides.Obj (PrecisionExamples.ToyTensor nlp_overrides.CudaFloatTensor 3);
       nlp_overrides.PyList
         [nlp_overrides.Obj (PrecisionExamples.ToyTensor nlp_overrides.FloatTensor 5);
          nlp_overrides.Obj (PrecisionExamples.ToyInt 1)]].
Proof. reflexivity. Qed.

Lemma fp32_to_float16_keeps_other_types_witness :
  (∀ o, PrecisionExamples.toy_type (PrecisionExamples.toy_data o)
        = PrecisionExamples.toy_type o)
  ∧ no_fp32 PrecisionExamples.toy_type PrecisionExamples.id_batch
  ∧ nlp_overrides.fp32_to_float16 PrecisionExamples.toy
      PrecisionExamples.toy_is_variable PrecisionExamples.toy_data
      PrecisionExamples.toy_type PrecisionExamples.id_batch
      (fun val => nlp_overrides.Obj (PrecisionExamples.toy_half val))
    = PrecisionExamples.id_batch.
Proof.
  assert (no_fp32 PrecisionExamples.toy_type PrecisionExamples.id_batch) as Hno
    by (repeat constructor).
  split; [exact toy_data_type|]. split; [exact Hno|].
  exact (fp32_to_float16_keeps_other_types PrecisionExamples.toy_is_variable
           PrecisionExamples.toy_data PrecisionExamples.toy_type toy_data_type
           (fun val => nlp_overrides.Obj (PrecisionExamples.toy_half val))
           PrecisionExamples.id_batch Hno).
Defined.

Lemma float16_to_fp32_leaves_no_half_witness :
  (∀ o, PrecisionExamples.toy_type (PrecisionExamples.toy_data o)
        = PrecisionExamples.toy_type o)
  ∧ (∀ o, nlp_overrides.isinstance PrecisionExamples.toy PrecisionExamples.toy_type
            (PrecisionExamples.toy_float o)
            (nlp_overrides._BF16_TYPES ++ nlp_overrides._HALF_TYPES) = false)
  ∧ shape_of (nlp_overrides.float16_to_fp32 PrecisionExamples.toy
                PrecisionExamples.toy_is_variable PrecisionExamples.toy_data
                PrecisionExamples.toy_type PrecisionExamples.toy_float
                PrecisionExamples.batch)
    = shape_of PrecisionExamples.batch
  ∧ leaves (nlp_overrides.float16_to_fp32 PrecisionExamples.toy
              PrecisionExamples.toy_is_variable PrecisionExamples.toy_data
              PrecisionExamples.toy_type PrecisionExamples.toy_float
              PrecisionExamples.batch)
    = map (fun o => if nlp_overrides.isinstance PrecisionExamples.toy
                         PrecisionExamples.toy_type o
                         (nlp_overrides._BF16_TYPES ++ nlp_overrides._HALF_TYPES)
                    then PrecisionExamples.toy_float o else o)
          (leaves PrecisionExamples.batch)
  ∧ no_half PrecisionExamples.toy_type
      (nlp_overrides.float16_to_fp32 PrecisionExamples.toy
         PrecisionExamples.toy_is_variable PrecisionExamples.toy_data
         PrecisionExamples.toy_type PrecisionExamples.toy_float
         PrecisionExamples.batch).
Proof.
  split; [exact toy_data_type|]. split; [exact toy_float_type|].
  exact (float16_to_fp32_leaves_no_half PrecisionExamples.toy_is_variable
           PrecisionExamples.toy_data PrecisionExamples.toy_type
           PrecisionExamples.toy_float toy_data_type toy_float_type
           PrecisionExamples.batch).
Defined.

Lemma float16_to_fp32_idempotent_witness :
  (∀ o, PrecisionExamples.toy_type (PrecisionExamples.toy_data o)
        = PrecisionExamples.toy_type o)
  ∧ (∀ o, nlp_overrides.isinstance PrecisionExamples.toy PrecisionExamples.toy_type
            (PrecisionExamples.toy_float o)
            (nlp_overrides._BF16_TYPES ++ nlp_overrides._HALF_TYPES) = false)
  ∧ nlp_overrides.float16_to_fp32 PrecisionExamples.toy
      PrecisionExamples.toy_is_variable PrecisionExamples.toy_data
      PrecisionExamples.toy_type PrecisionExamples.toy_float
      (nlp_overrides.float16_to_fp32 PrecisionExamples.toy
         PrecisionExamples.toy_is_variable PrecisionExamples.toy_data
         PrecisionExamples.toy_type PrecisionExamples.toy_float
         PrecisionExamples.batch)
    = nlp_overrides.float16_to_fp32 PrecisionExamples.toy
        PrecisionExamples.toy_is_variable PrecisionExamples.toy_data
        PrecisionExamples.toy_type PrecisionExamples.toy_float
        PrecisionExamples.batch.
Proof.
  split; [exact toy_data_type|]. split; [exact toy_float_type|].
  exact (float16_to_fp32_idempotent PrecisionExamples.toy_is_variable
           PrecisionExamples.toy_data PrecisionExamples.toy_type
           PrecisionExamples.toy_float toy_data_type toy_float_type
           PrecisionExamples.batch).
Defined.

Lemma forward_casts_in_and_out_witness :
  nlp_overrides.Float16Module_init PrecisionExamples.toy PrecisionExamples.toy_half
    PrecisionExamples.toy_bfloat16 unit (fun net => net) (fun net => net) tt
    (nlp_overrides.PrecisionInt 16)
  = nlp_overrides.Returns PrecisionExamples.half_module
  ∧ ∃ args,
      nlp_overrides.forward PrecisionExamples.toy PrecisionExamples.toy_is_variable
        PrecisionExamples.toy_data PrecisionExamples.toy_type
        PrecisionExamples.toy_float unit unit PrecisionExamples.echo_call
        PrecisionExamples.half_module true true
        (nlp_overrides.star PrecisionExamples.toy PrecisionExamples.batch) tt
      = nlp_overrides.float16_to_fp32 PrecisionExamples.toy
          PrecisionExamples.toy_is_variable PrecisionExamples.toy_data
          PrecisionExamples.toy_type PrecisionExamples.toy_float
          (PrecisionExamples.echo_call tt args tt)
      ∧ args = map (fun v => nlp_overrides.fp32_to_float16 PrecisionExamples.toy
                               PrecisionExamples.toy_is_variable
                               PrecisionExamples.toy_data PrecisionExamples.toy_type v
                               (fun val => nlp_overrides.Obj
                                             (PrecisionExamples.toy_half val)))
                   (nlp_overrides.star PrecisionExamples.toy PrecisionExamples.batch)
      ∧ map shape_of args
        = map shape_of (nlp_overrides.star PrecisionExamples.toy PrecisionExamples.batch)
      ∧ Forall (no_fp32 PrecisionExamples.toy_type) args
      ∧ no_half PrecisionExamples.toy_type
          (nlp_overrides.forward PrecisionExamples.toy
             PrecisionExamples.toy_is_variable PrecisionExamples.toy_data
             PrecisionExamples.toy_type PrecisionExamples.toy_float unit unit
             PrecisionExamples.echo_call PrecisionExamples.half_module true true
             (nlp_overrides.star PrecisionExamples.toy PrecisionExamples.batch) tt).
Proof.
  split; [reflexivity|].
  exact (forward_casts_in_and_out PrecisionExamples.toy_is_variable
           PrecisionExamples.toy_data PrecisionExamples.toy_type
           PrecisionExamples.toy_float PrecisionExamples.toy_half
           PrecisionExamples.toy_bfloat16 (fun net => net) (fun net => net)
           PrecisionExamples.echo_call toy_data_type toy_float_type toy_half_type
           toy_bfloat16_type tt (nlp_overrides.PrecisionInt 16)
           PrecisionExamples.half_module
           (nlp_overrides.star PrecisionExamples.toy PrecisionExamples.batch) tt
           eq_refl).
Defined.
